(** * Lowest-point background subtraction for Raman spectra

    A shallow embedding of [remove_fluo_spectra_lowest_point] from
    [vodinhprocessor.py] (the lowest-point method adapted from Vodinh et al.),
    and the properties its specification states about it.

    Definitions:
    - [Arith]: the scalar operations the routine uses, as an interface, so
      that the one embedding of the routine runs both on IEEE binary64 numbers
      (what numpy computes with) and on exact rationals (the reading "in
      exact arithmetic" of the specification);
    - [Section Estimator]: numpy indexing, the loops and the routine itself;
    - [Module Float64]: the binary64 instance, on the primitive floats;
    - [Module Exact]: the exact instance, on canonical rationals extended with
      the IEEE special values;
    - [Module Store]: the routine once more, over a store of buffers with
      views, copies and writes in place, to speak about what the caller's
      array holds after a call;
    - [Module Session]: [process_one_file] and the loop of the script, over
      what the dialogs, the files and the terminal answer.

    Theorems: facts of the loops for every arithmetic, facts of binary64
    arithmetic, then the properties of the routine on binary64 numbers, in
    exact arithmetic and over the store, and the properties of the script.

    The arrays hold [float64], as [np.loadtxt] returns them and as the
    specification has them (floating point throughout). The smoother,
    [scipy.signal.savgol_filter], is a parameter that returns or raises. *)

From Stdlib Require Import ZArith List Bool Lia String.
From Stdlib Require Import QArith Qcanon.
From Stdlib Require Import Floats.
From stdpp Require Import base list gmap.

Local Open Scope Z_scope.
Local Open Scope list_scope.

(** ** Scalars *)

(** The operations on array elements and Python floats that the routine uses.
    [of_int] is the conversion of a Python [int] that true division [/]
    applies to its operands. *)
Class Arith (F : Type) := {
  finf : F;                      (* np.inf *)
  fadd : F -> F -> F;
  fsub : F -> F -> F;
  fmul : F -> F -> F;
  fdiv : F -> F -> F;
  flt : F -> F -> bool;          (* a < b *)
  of_int : Z -> F
}.

(** ** Exceptions *)

Inductive exn : Type :=
| ValueError (msg : string)
| IndexError
| ZeroDivisionError.

Definition result (A : Type) : Type := exn + A.

Definition ret {A} (a : A) : result A := inr a.
Definition raise {A} (e : exn) : result A := inl e.
Definition bind {A B} (m : result A) (k : A -> result B) : result B :=
  match m with
  | inl e => inl e
  | inr a => k a
  end.

Declare Scope result_scope.
Delimit Scope result_scope with result.
Notation "'let!' x ':=' m 'in' k" := (bind m (fun x => k))
  (at level 10, x name, m at level 100, k at level 200, only parsing)
  : result_scope.
Local Open Scope result_scope.

(** The three messages of the routine's own [raise ValueError(...)], under
    the names the specification gives the error kinds. *)
Definition InvalidShape : exn :=
  ValueError "input_spectrum must be an (N,2) array: [wavenumber, intensity].".
Definition InvalidParameter_too_small : exn :=
  ValueError "int_width must be >= 2.".
Definition InvalidParameter_odd : exn :=
  ValueError "int_width must be an even integer.".

Definition is_InvalidParameter (e : exn) : Prop :=
  e = InvalidParameter_too_small \/ e = InvalidParameter_odd.

(** What [np.column_stack] raises on columns of different lengths. *)
Definition ColumnMismatch : exn :=
  ValueError "all the input array dimensions except for the concatenation axis must match exactly".

(** ** Python loops and numpy indexing *)

(** [range(a, b)]. *)
Definition py_range (a b : Z) : list Z := seqZ a (b - a).

(** [for i in l: s = body(i, s)], where the body may raise. *)
Fixpoint for_each {S : Type} (l : list Z) (body : Z -> S -> result S) (s : S)
  : result S :=
  match l with
  | [] => ret s
  | i :: l' => let! s' := body i s in for_each l' body s'
  end.

(** The default element of total lookups. *)
#[global] Instance arith_inhabited {F : Type} `{Arith F} : Inhabited F :=
  populate finf.

Section Estimator.
Context {F : Type} `{Arith F}.

(** An array of [float64]: its shape and its elements in row-major order. *)
Record ndarray : Type := mk_ndarray { shape : list nat; data : list F }.

(** numpy's invariant: as many elements as the shape says. *)
Definition well_formed (a : ndarray) : Prop :=
  length (data a) = fold_right Nat.mul 1%nat (shape a).

(** [a[idx]] on a one-dimensional array: a negative index counts from the
    end, an index outside [-n, n) raises. *)
Definition normalize_index (n idx : Z) : result nat :=
  if (0 <=? idx) && (idx <? n) then ret (Z.to_nat idx)
  else if (- n <=? idx) && (idx <? 0) then ret (Z.to_nat (idx + n))
  else raise IndexError.

Definition getitem (a : list F) (idx : Z) : result F :=
  let! p := normalize_index (Z.of_nat (length a)) idx in
  match a !! p with
  | Some v => ret v
  | None => raise IndexError
  end.

(** [a[idx] = v]. *)
Definition setitem (a : list F) (idx : Z) (v : F) : result (list F) :=
  let! p := normalize_index (Z.of_nat (length a)) idx in
  ret (<[p := v]> a).

(** [j / d] on Python ints. *)
Definition true_div (j d : Z) : result F :=
  if d =? 0 then raise ZeroDivisionError
  else ret (fdiv (of_int j) (of_int d)).

(** [input_spectrum[:, 0]] and [input_spectrum[:, 1]] on the row-major
    elements of an (N,2) array. *)
Fixpoint column0 (d : list F) : list F :=
  match d with
  | x :: _ :: d' => x :: column0 d'
  | _ => []
  end.

Fixpoint column1 (d : list F) : list F :=
  match d with
  | _ :: y :: d' => y :: column1 d'
  | _ => []
  end.

(** The row-major elements of [np.column_stack((x, c))]. *)
Fixpoint interleave (x c : list F) : list F :=
  match x, c with
  | a :: x', b :: c' => a :: b :: interleave x' c'
  | _, _ => []
  end.

Definition column_stack (x c : list F) : result ndarray :=
  if (length x =? length c)%nat
  then ret (mk_ndarray [length x; 2%nat] (interleave x c))
  else raise ColumnMismatch.

(** [p - bg] on two arrays of one length. *)
Fixpoint subtract (p bg : list F) : list F :=
  match p, bg with
  | a :: p', b :: bg' => fsub a b :: subtract p' bg'
  | _, _ => []
  end.

(** ** The estimator *)

(** [temp_intensity], lines 43-47: the operands are read in the order
    Python evaluates them. *)
Definition candidate (y : list F) (i j k : Z) : result F :=
  let! a := getitem y (i + k) in
  let! b := getitem y (i - j) in
  let! r := true_div j (k + j) in
  let! b' := getitem y (i - j) in
  ret (fadd (fmul (fsub a b) r) b').

(** The comparison of line 48 and the assignment of line 49. *)
Definition keep_lower (t low : F) : F := if flt t low then t else low.

(** Lines 40-49: the two inner loops at index [i]. *)
Definition lowest_intensity (y : list F) (half_width i : Z) : result F :=
  for_each (py_range 1 (half_width + 1))
    (fun j low =>
       for_each (py_range 1 (half_width + 1))
         (fun k low =>
            let! t := candidate y i j k in
            ret (keep_lower t low))
         low)
    finf.

(** Lines 34-50: [bg] starts as a copy of the preprocessed intensities and
    is overwritten at the indices of the outer loop. *)
Definition background (preprocessed_y : list F) (half_width : Z)
  : result (list F) :=
  let n := Z.of_nat (length preprocessed_y) in
  for_each (py_range half_width (n - half_width))
    (fun i bg =>
       let! low := lowest_intensity preprocessed_y half_width i in
       setitem bg i low)
    preprocessed_y.

(** The specification's words for the same: the interpolation
    [(y[i+k] - y[i-j]) * (j / (j + k)) + y[i-j]], all of them at [i] for the
    offsets in [[1, half_width]], and the least of a list as the scan of
    lines 48-49 finds it. *)
Definition interpolation (y : list F) (i j k : Z) : F :=
  let a := y !!! Z.to_nat (i + k) in
  let b := y !!! Z.to_nat (i - j) in
  fadd (fmul (fsub a b) (fdiv (of_int j) (of_int (j + k)))) b.

Definition candidates (y : list F) (half_width i : Z) : list F :=
  j ← py_range 1 (half_width + 1);
  k ← py_range 1 (half_width + 1);
  [interpolation y i j k].

Definition running_min (ts : list F) : F :=
  foldl (fun low t => keep_lower t low) finf ts.

(** One round of the outer loop where nothing raises: [bg[i]] becomes the
    least candidate at [i]. *)
Definition overwrite_lowest (p : list F) (half_width : Z) (bg : list F)
    (i : Z) : list F :=
  <[Z.to_nat i := running_min (candidates p half_width i)]> bg.

(** [hw <= i < n - hw]: the indices of the outer loop. *)
Definition interior (n half_width i : Z) : Prop :=
  half_width <= i < n - half_width.

(** [scipy.signal.savgol_filter(y, window_length, polyorder)]: not code of
    this repository, so a parameter. It returns the smoothed samples or it
    raises, as scipy's does on fewer samples than the window and on samples
    near the edges that are not finite. *)
Variable savgol_filter : list F -> Z -> Z -> result (list F).

(** Lines 27-32: a copy of [y], or what the smoother makes of [y]; an
    exception of the smoother leaves the routine. *)
Definition preprocess (y : list F) (need_to_be_smoothed : bool)
  : result (list F) :=
  if need_to_be_smoothed then
    let span := 5 in
    let poly_degree := 1 in
    savgol_filter y span poly_degree
  else ret y.

(** Lines 14-22, on [input_spectrum.shape] and the value of
    [int(int_width)]. *)
Definition validate (shape : list nat) (int_width : Z) : result unit :=
  if negb (length shape =? 2)%nat || negb (nth 1 shape 0%nat =? 2)%nat
  then raise InvalidShape
  else if int_width <? 2 then raise InvalidParameter_too_small
  else if negb (int_width mod 2 =? 0) then raise InvalidParameter_odd
  else ret tt.

Definition remove_fluo_spectra_lowest_point
    (input_spectrum : ndarray) (int_width : Z) (need_to_be_smoothed : bool)
  : result ndarray :=
  let! _ := validate (shape input_spectrum) int_width in
  let x := column0 (data input_spectrum) in
  let y := column1 (data input_spectrum) in
  let! preprocessed_y := preprocess y need_to_be_smoothed in
  let half_width := int_width / 2 in
  let! bg := background preprocessed_y half_width in
  let clean_y := subtract preprocessed_y bg in
  column_stack x clean_y.

End Estimator.

Arguments ndarray : clear implicits.

(** ** The binary64 instance *)

Module Float64.

(** [float(z)] for a Python int: the nearest binary64 number, ties to even.
    For the offsets of the loops, which are far below 2^53, [j / d] on Python
    ints is the binary64 quotient of the two conversions. *)
Definition Z2float (z : Z) : float :=
  SF2Prim (binary_normalize prec emax z 0 false).

#[export] Instance float64 : Arith float := {|
  finf := infinity;
  fadd := PrimFloat.add;
  fsub := PrimFloat.sub;
  fmul := PrimFloat.mul;
  fdiv := PrimFloat.div;
  flt := PrimFloat.ltb;
  of_int := Z2float
|}.

(** A smoother for the calls that do not smooth. *)
Definition no_smoothing (y : list float) (window_length polyorder : Z)
  : result (list float) := inr y.

(** A stand-in for scipy's smoother as far as its exceptions go: it raises
    ValueError on fewer samples than the window, and where one of the first
    or the last [window_length] samples, the ones the edge fits read, is not
    finite (numpy's LinAlgError, a ValueError); where it returns, the samples
    are returned as they are. *)
Definition edge_checked_smoother
    (y : list float) (window_length polyorder : Z) : result (list float) :=
  let n := length y in
  let w := Z.to_nat window_length in
  if (n <? w)%nat then
    inl (ValueError
      "If mode is 'interp', window_length must be less than or equal to the size of x.")
  else if forallb is_finite (take w y ++ drop (n - w) y) then inr y
  else inl (ValueError "SVD did not converge in Linear Least Squares").

(** [b] is the least of the candidates at [i]: it is the [temp_intensity]
    of some offsets [j], [k] in [[1, half_width]], and the [temp_intensity]
    of any such offsets is at or above it. *)
Definition least_candidate (y : list float) (half_width i : Z) (b : float)
  : Prop :=
  (exists j k, 1 <= j <= half_width /\ 1 <= k <= half_width
               /\ candidate y i j k = inr b)
  /\ (forall j k, 1 <= j <= half_width -> 1 <= k <= half_width ->
         exists c, candidate y i j k = inr c /\ (b <=? c)%float = true).

(** At row [t] of an unsmoothed call: the background is the least
    candidate, and the returned intensity is the input's minus it. *)
Definition background_is_least
    (savgol_filter : list float -> Z -> Z -> result (list float))
    (a : ndarray float) (w : Z) (t : nat) : Prop :=
  exists out bg b yt,
    remove_fluo_spectra_lowest_point savgol_filter a w false = inr out
    /\ background (column1 (data a)) (w / 2) = inr bg
    /\ bg !! t = Some b
    /\ column1 (data a) !! t = Some yt
    /\ least_candidate (column1 (data a)) (w / 2) (Z.of_nat t) b
    /\ column1 (data out) !! t = Some (yt - b)%float.

(** Every returned intensity is zero, of either sign. *)
Definition all_intensities_zero (out : ndarray float) : Prop :=
  forall (t : nat) (v : float),
    column1 (data out) !! t = Some v -> (v =? 0)%float = true.

(** The spectrum of the concrete scenario: a flat baseline with one spike,
    wavenumbers 0..10. *)
Definition spike : ndarray float :=
  mk_ndarray [11%nat; 2%nat]
    [0; 0;  1; 0;  2; 0;  3; 0;  4; 0;  5; 10;
     6; 0;  7; 0;  8; 0;  9; 0;  10; 0]%float.

(** Three samples, NaN on both sides of the middle one. *)
Definition nan_window : ndarray float :=
  mk_ndarray [3%nat; 2%nat] [0; nan;  1; 5;  2; nan]%float.

(** The spectrum of the second scenario with the first intensity NaN. *)
Definition nan_edge : ndarray float :=
  mk_ndarray [11%nat; 2%nat]
    [0; nan;  1; 1;  2; 2;  3; 3;  4; 4;  5; 5;
     6; 6;  7; 7;  8; 8;  9; 9;  10; 10]%float.

(** One sample, its intensity NaN. *)
Definition nan_sample : ndarray float :=
  mk_ndarray [1%nat; 2%nat] [0; nan]%float.

(** The spectrum of the second scenario: intensity equal to the wavenumber
    index; and a ramp of slope 0.1. *)
Definition index_ramp : ndarray float :=
  mk_ndarray [11%nat; 2%nat]
    [0; 0;  1; 1;  2; 2;  3; 3;  4; 4;  5; 5;
     6; 6;  7; 7;  8; 8;  9; 9;  10; 10]%float.

Definition tenth_ramp : ndarray float :=
  mk_ndarray [7%nat; 2%nat]
    (t ← seqZ 0 7; [Z2float t; (Z2float t / 10)%float]).

(** Two stores that hold the spectrum of the scenario: in buffer 5 of the
    first, and in buffer 9 of the second, next to another buffer. *)
Definition spike_store : gmap positive (list float) :=
  {[5%positive := data spike]}.

Definition crowded_store : gmap positive (list float) :=
  <[9%positive := data spike]> {[2%positive := [nan]]}.

End Float64.

(** ** The exact instance *)

Module Exact.

(** Rationals with the special values of IEEE arithmetic: the same
    operations, without rounding and with a single zero. *)
Inductive xreal : Type :=
| Real (q : Qc)
| PosInf
| NegInf
| NotANumber.

Definition Qc_ltb (p q : Qc) : bool :=
  match (p ?= q)%Qc with Lt => true | _ => false end.

Definition Qc_is_zero (p : Qc) : bool :=
  match (p ?= 0)%Qc with Eq => true | _ => false end.

(** The infinity with the sign of [p] times the sign [neg]; none for 0. *)
Definition signed_inf (neg : bool) (p : Qc) : xreal :=
  if Qc_is_zero p then NotANumber
  else if xorb neg (Qc_ltb p 0) then NegInf else PosInf.

Definition xopp (a : xreal) : xreal :=
  match a with
  | Real p => Real (- p)
  | PosInf => NegInf
  | NegInf => PosInf
  | NotANumber => NotANumber
  end.

Definition xadd (a b : xreal) : xreal :=
  match a, b with
  | NotANumber, _ | _, NotANumber => NotANumber
  | Real p, Real q => Real (p + q)
  | PosInf, NegInf | NegInf, PosInf => NotANumber
  | PosInf, _ | _, PosInf => PosInf
  | NegInf, _ | _, NegInf => NegInf
  end.

Definition xsub (a b : xreal) : xreal := xadd a (xopp b).

Definition xmul (a b : xreal) : xreal :=
  match a, b with
  | NotANumber, _ | _, NotANumber => NotANumber
  | Real p, Real q => Real (p * q)
  | PosInf, Real q | Real q, PosInf => signed_inf false q
  | NegInf, Real q | Real q, NegInf => signed_inf true q
  | PosInf, PosInf | NegInf, NegInf => PosInf
  | PosInf, NegInf | NegInf, PosInf => NegInf
  end.

Definition xdiv (a b : xreal) : xreal :=
  match a, b with
  | NotANumber, _ | _, NotANumber => NotANumber
  | Real p, Real q => if Qc_is_zero q then signed_inf false p else Real (p / q)
  | Real _, (PosInf | NegInf) => Real 0
  | PosInf, Real q => if Qc_ltb q 0 then NegInf else PosInf
  | NegInf, Real q => if Qc_ltb q 0 then PosInf else NegInf
  | (PosInf | NegInf), (PosInf | NegInf) => NotANumber
  end.

Definition xlt (a b : xreal) : bool :=
  match a, b with
  | Real p, Real q => Qc_ltb p q
  | NegInf, (Real _ | PosInf) => true
  | Real _, PosInf => true
  | _, _ => false
  end.

Definition Z2Qc (z : Z) : Qc := Q2Qc (inject_Z z).

#[export] Instance exact : Arith xreal := {|
  finf := PosInf;
  fadd := xadd;
  fsub := xsub;
  fmul := xmul;
  fdiv := xdiv;
  flt := xlt;
  of_int := fun z => Real (Z2Qc z)
|}.

(** A smoother for the calls that do not smooth. *)
Definition no_smoothing (y : list xreal) (window_length polyorder : Z)
  : result (list xreal) := inr y.

(** The spectrum of the linear-ramp scenario: seven samples, intensity equal
    to the wavenumber index. *)
Definition ramp : ndarray xreal :=
  mk_ndarray [7%nat; 2%nat]
    (t ← seqZ 0 7; [Real (Z2Qc t); Real (Z2Qc t)]).

End Exact.

(** ** The routine over a store of arrays *)

(** numpy arrays are objects: [input_spectrum[:, 0]] is a view on the
    caller's buffer, [.copy()] allocates, and [bg[i] = ...] writes in place.
    Here the routine is embedded once more with the buffers in a store, so
    that what the caller's buffer holds after a call can be stated. *)
Module Store.
Section Store.
Context {F : Type} `{Arith F}.

(** Buffers are named by positive numbers; the store holds the buffers of
    the live arrays. *)
Local Abbreviation loc := positive (only parsing).
Local Abbreviation store := (gmap positive (list F)) (only parsing).

(** A computation on the store: its outcome and the store it leaves, also
    when it raises. *)
Definition M (A : Type) : Type := store -> result A * store.

Definition mret {A} (a : A) : M A := fun s => (inr a, s).
Definition lift {A} (r : result A) : M A := fun s => (r, s).
Definition mbind {A B} (m : M A) (k : A -> M B) : M B :=
  fun s =>
    match m s with
    | (inr a, s') => k a s'
    | (inl e, s') => (inl e, s')
    end.

Notation "'let*' x ':=' m 'in' k" := (mbind m (fun x => k))
  (at level 10, x name, m at level 100, k at level 200, only parsing).

(** A one-dimensional array object: [size] elements of a buffer, from
    [offset] on, [stride] apart. *)
Record array : Type :=
  mk_array { buffer : loc; offset : nat; stride : nat; size : nat }.

(** A two-dimensional array object that owns its buffer. *)
Record array2 : Type := mk_array2 { buffer2 : loc; shape2 : list nat }.

Definition elements (s : store) (v : array) : list F :=
  omap (fun t : nat => (s !!! buffer v) !! (offset v + stride v * t)%nat)
       (seq 0 (size v)).

Definition read (v : array) : M (list F) := fun s => (inr (elements s v), s).

(** A new array, in a buffer of its own. *)
Definition new_array (xs : list F) : M array :=
  fun s =>
    let l := fresh (dom s) in
    (inr (mk_array l 0 1 (length xs)), <[l := xs]> s).

(** [v.copy()]. *)
Definition copy (v : array) : M array :=
  let* xs := read v in new_array xs.

(** [v[idx] = x]: a write into the buffer [v] is a window on. *)
Definition store_item (v : array) (idx : Z) (x : F) : M unit :=
  fun s =>
    match normalize_index (Z.of_nat (size v)) idx with
    | inl e => (inl e, s)
    | inr p =>
        (inr tt,
         <[buffer v := <[(offset v + stride v * p)%nat := x]> (s !!! buffer v)]>
           s)
    end.

(** [for i in l: body(i)], the body acting on the store. *)
Fixpoint for_each_in_place (l : list Z) (body : Z -> M unit) : M unit :=
  match l with
  | [] => mret tt
  | i :: l' => let* _ := body i in for_each_in_place l' body
  end.

(** [a[:, c]] for an (N,2) array: a view, no copy. *)
Definition column_view (a : array2) (c : nat) : array :=
  mk_array (buffer2 a) c 2 (nth 0 (shape2 a) 0%nat).

(** [p - bg]: a new array. *)
Definition subtract_arrays (p bg : array) : M array :=
  let* ps := read p in
  let* bs := read bg in
  new_array (subtract ps bs).

(** [np.column_stack((x, c))]: a new array, or the exception. *)
Definition stack_columns (x c : array) : M array2 :=
  let* xs := read x in
  let* cs := read c in
  match column_stack xs cs with
  | inl e => lift (inl e)
  | inr out =>
      fun s =>
        let l := fresh (dom s) in
        (inr (mk_array2 l (shape out)), <[l := data out]> s)
  end.

Variable savgol_filter : list F -> Z -> Z -> result (list F).

(** [savgol_filter(y, window_length=span, polyorder=poly_degree)]: reads
    [y], returns a new array, or raises. *)
Definition apply_filter (y : array) (span poly_degree : Z) : M array :=
  let* ys := read y in
  let* smoothed := lift (savgol_filter ys span poly_degree) in
  new_array smoothed.

(** [remove_fluo_spectra_lowest_point], lines 13-54, statement by
    statement; the inner loops only read, so they are the ones of
    [lowest_intensity], on the elements [preprocessed_y] has when the
    iteration of the outer loop starts. *)
Definition remove_fluo_spectra_lowest_point_in_place
    (input_spectrum : array2) (int_width : Z) (need_to_be_smoothed : bool)
  : M array2 :=
  let* _ := lift (validate (shape2 input_spectrum) int_width) in
  let x := column_view input_spectrum 0 in
  let* y := copy (column_view input_spectrum 1) in
  let* preprocessed_y := copy y in
  let* preprocessed_y :=
    (if need_to_be_smoothed then apply_filter y 5 1 else mret preprocessed_y) in
  let n := Z.of_nat (size preprocessed_y) in
  let half_width := int_width / 2 in
  let* bg := copy preprocessed_y in
  let* _ :=
    for_each_in_place (py_range half_width (n - half_width))
      (fun i =>
         let* ps := read preprocessed_y in
         let* low := lift (lowest_intensity ps half_width i) in
         store_item bg i low) in
  let* clean_y := subtract_arrays preprocessed_y bg in
  stack_columns x clean_y.

(** Two outcomes are the same when both raise the same exception, or both
    return arrays of one shape with the same elements. *)
Definition same_outcome (r1 : result array2 * store)
    (r2 : result array2 * store) : Prop :=
  match r1, r2 with
  | (inl e1, _), (inl e2, _) => e1 = e2
  | (inr o1, s1), (inr o2, s2) =>
      shape2 o1 = shape2 o2
      /\ is_Some (s1 !! buffer2 o1)
      /\ s1 !! buffer2 o1 = s2 !! buffer2 o2
  | _, _ => False
  end.

End Store.
End Store.

(** * The interactive part: [process_one_file] and the session loop *)

(** The dialogs, the files, the clipboard and the terminal are the world
    outside: a script holds what the world answers (the file chosen, what
    [np.loadtxt] returns or raises, the line typed at the prompt), and the
    program is embedded as the function from a script to the actions it
    performs, in order, and the way it ends. The library calls that are not
    code of this repository are parameters. *)
Module Session.
Import Float64 Ascii.

Section Session.

(** [scipy.signal.savgol_filter], the formatting [f"{v:.8g}"], and
    [os.path.splitext(os.path.basename(filename))[0]]. The smoother
    returns or raises, as in the estimator. *)
Variable savgol_filter : list float -> Z -> Z -> result (list float).
Variable format_8g : float -> string.
Variable default_stem : string -> string.

Definition newline : string := String "010"%char EmptyString.
Definition tab : string := String "009"%char EmptyString.

(** What the program does to the world. *)
Inductive action : Type :=
| TkRoot                                   (* root = tk.Tk() *)
| Withdraw                                 (* root.withdraw() *)
| Destroy                                  (* root.destroy() *)
| AskOpenFilename
| LoadTxt (filename : string)
| AskSaveAsFilename (initialfile : string)
| SaveTxt (path : string) (clean_spectrum : ndarray float)
| ClipboardCopy (text : string)
| Printed (text : string)
| Prompt (text : string).

(** What ends a call before its last line. *)
Inductive failure : Type :=
| Raised (e : exn)              (* by remove_fluo_spectra_lowest_point *)
| LoadTxtError (msg : string)   (* whatever np.loadtxt raised *)
| SaveTxtError (msg : string)   (* whatever np.savetxt raised *)
| EOFError.                     (* input() at the end of the input *)

(** What the world answers during one call of [process_one_file]: the two
    dialogs return the empty string when cancelled. *)
Record round : Type := mk_round {
  chosen_file : string;
  loaded : string + ndarray float;
  chosen_save_path : string;
  savetxt_error : option string;
  clipboard_error : option string     (* a PyperclipException *)
}.

(** Actions so far, and an exception or a value. *)
Definition io (A : Type) : Type := (list action * (failure + A))%type.

Definition emit (a : action) : io unit := ([a], inr tt).
Definition throw {A} (f : failure) : io A := ([], inl f).
Definition io_bind {A B} (m : io A) (k : A -> io B) : io B :=
  match m with
  | (tr, inl f) => (tr, inl f)
  | (tr, inr a) => let '(tr', r) := k a in (tr ++ tr', r)
  end.

Notation "'let?' x ':=' m 'in' k" := (io_bind m (fun x => k))
  (at level 10, x name, m at level 100, k at level 200, only parsing).

Definition is_empty (s : string) : bool := String.eqb s EmptyString.

(** [np.loadtxt(filename, delimiter=",")]. *)
Definition np_loadtxt (r : round) (filename : string) : io (ndarray float) :=
  let? _ := emit (LoadTxt filename) in
  match loaded r with
  | inl msg => throw (LoadTxtError msg)
  | inr a => ([], inr a)
  end.

(** [np.savetxt(save_path, clean_spectrum, delimiter="\t", fmt="%.8g")]. *)
Definition np_savetxt (r : round) (save_path : string)
    (clean_spectrum : ndarray float) : io unit :=
  match savetxt_error r with
  | Some msg => throw (SaveTxtError msg)
  | None => emit (SaveTxt save_path clean_spectrum)
  end.

(** [for row in clean_spectrum], on an (N,2) array. *)
Definition rows (a : ndarray float) : list (list float) :=
  zip_with (fun x c => [x; c]) (column0 (data a)) (column1 (data a)).

(** Lines 102-103. *)
Definition clip_text (clean_spectrum : ndarray float) : string :=
  let lines :=
    map (fun row => String.concat tab (map format_8g row))
        (rows clean_spectrum) in
  String.concat newline lines.

(** Lines 57-111. *)
Definition process_one_file (r : round) : io unit :=
  let? _ := emit TkRoot in
  let? _ := emit Withdraw in
  let? _ := emit AskOpenFilename in
  let filename := chosen_file r in
  if is_empty filename then
    let? _ := emit (Printed
                      (String.append "No file selected. Returning to menu."
                         newline)) in
    emit Destroy
  else
    let? input_spectrum := np_loadtxt r filename in
    let b_need_to_be_smoothed := true in
    let int_width := 30 in
    let? clean_spectrum :=
      match remove_fluo_spectra_lowest_point savgol_filter input_spectrum
              int_width b_need_to_be_smoothed with
      | inl e => throw (Raised e)
      | inr clean => ([], inr clean)
      end in
    let default_name :=
      String.append (default_stem filename) "_bkgrndsub.csv" in
    let? _ := emit (AskSaveAsFilename default_name) in
    let save_path := chosen_save_path r in
    let? _ :=
      (if is_empty save_path then
         emit (Printed "No output file selected (skipping save).")
       else
         let? _ := np_savetxt r save_path clean_spectrum in
         emit (Printed
                 (String.append "Saved processed spectrum to: " save_path)))
    in
    let? _ :=
      match clipboard_error r with
      | None =>
          let? _ := emit (ClipboardCopy (clip_text clean_spectrum)) in
          emit (Printed
                  (String.append
                     "Clean spectrum copied to clipboard (tab-delimited for Excel)."
                     newline))
      | Some e =>
          emit (Printed
                  (String.concat " "
                     ["Could not copy to clipboard:"%string; e; newline]))
      end in
    emit Destroy.

(** [str.strip()] and [str.lower()], on ASCII text. *)
Definition is_space (c : ascii) : bool :=
  let n := nat_of_ascii c in
  ((9 <=? n) && (n <=? 13) || (28 <=? n) && (n <=? 32))%nat.

Definition lower_char (c : ascii) : ascii :=
  let n := nat_of_ascii c in
  if ((65 <=? n) && (n <=? 90))%nat then ascii_of_nat (n + 32) else c.

Fixpoint lstrip (l : list ascii) : list ascii :=
  match l with
  | c :: l' => if is_space c then lstrip l' else l
  | [] => []
  end.

Definition strip (s : string) : string :=
  string_of_list_ascii
    (rev (lstrip (rev (lstrip (list_ascii_of_string s))))).

Definition lower (s : string) : string :=
  string_of_list_ascii (map lower_char (list_ascii_of_string s)).

Definition is_ascii (s : string) : bool :=
  forallb (fun c => (nat_of_ascii c <? 128)%nat) (list_ascii_of_string s).

(** One turn of the loop: the world during the call, and the line typed at
    the prompt, if the input has not ended. *)
Record iteration : Type := mk_iteration {
  world : round;
  answer : option string
}.

(** How the session stands when the script ends. *)
Inductive outcome : Type :=
| Ended                      (* left the loop *)
| Crashed (f : failure)      (* an exception left the program *)
| Running.                   (* the script is over, the program is not *)

Definition question : string := "Process another file? (y/n): ".

(** [ans != "y"], line 118. *)
Definition stops (line : string) : bool :=
  negb (String.eqb (lower (strip line)) "y").

(** Lines 115-120. *)
Fixpoint main (script : list iteration) : list action * outcome :=
  match script with
  | [] => ([], Running)
  | it :: rest =>
      match process_one_file (world it) with
      | (tr, inl f) => (tr, Crashed f)
      | (tr, inr _) =>
          match answer it with
          | None => (tr ++ [Prompt question], Crashed EOFError)
          | Some line =>
              if stops line
              then (tr ++ [Prompt question; Printed "Session ended."], Ended)
              else let '(tr', o) := main rest in
                   (tr ++ Prompt question :: tr', o)
          end
      end
  end.

(** [s.split(sep)] for a separator of one character, and whether a
    character occurs in a text: what reads the clipboard text back. *)
Fixpoint split_on (sep : ascii) (s : string) : list string :=
  match s with
  | EmptyString => [EmptyString]
  | String c s' =>
      if Ascii.eqb c sep then EmptyString :: split_on sep s'
      else match split_on sep s' with
           | p :: ps => String c p :: ps
           | [] => [String c EmptyString]
           end
  end.

Fixpoint has_char (c : ascii) (s : string) : bool :=
  match s with
  | EmptyString => false
  | String c' s' => Ascii.eqb c' c || has_char c s'
  end.

(** What is measured on a list of actions. *)
Definition destroys (tr : list action) : nat :=
  length (List.filter
            (fun a => match a with Destroy => true | _ => false end) tr).

Definition files_asked (tr : list action) : nat :=
  length (List.filter
            (fun a => match a with AskOpenFilename => true | _ => false end)
            tr).

(** The loop goes round again after this turn. *)
Definition goes_on (it : iteration) : bool :=
  match snd (process_one_file (world it)), answer it with
  | inr _, Some line => negb (stops line)
  | _, _ => false
  end.

(** The smoother returned on the table's intensities, with as many samples
    as the table has rows (scipy's does on five rows or more). *)
Definition smoothed (a : ndarray float) : Prop :=
  forall N, shape a = [N; 2%nat] ->
    exists p, savgol_filter (column1 (data a)) 5 1 = inr p /\ length p = N.

End Session.
End Session.

(** ** The interpolation and the scan on rationals *)

Section Rationals.
Import Exact.
Local Open Scope Qc_scope.

#[global] Instance Qc_inhabited : Inhabited Qc := populate 0.

(** [temp_intensity], the candidates of an index and one step of the scan,
    on rationals alone. *)
Definition qinterpolation (qs : list Qc) (i j k : Z) : Qc :=
  (qs !!! Z.to_nat (i + k) - qs !!! Z.to_nat (i - j))
  * (Z2Qc j / Z2Qc (j + k))
  + qs !!! Z.to_nat (i - j).

Definition qcandidates (qs : list Qc) (half_width i : Z) : list Qc :=
  j ← py_range 1 (half_width + 1);
  k ← py_range 1 (half_width + 1);
  [qinterpolation qs i j k].

Definition qstep (low t : Qc) : Qc := if Qc_ltb t low then t else low.

End Rationals.

(** ** Spectra and scripts of the worked examples *)

(** The spectrum of the spike scenario with the spike lowered to 3 and the
    first intensity raised to 7; a smoother that halves every intensity; an
    uneven run of intensities. *)
Definition dented_spike : ndarray float :=
  mk_ndarray [11%nat; 2%nat]
    [0; 7;  1; 0;  2; 0;  3; 0;  4; 0;  5; 3;
     6; 0;  7; 0;  8; 0;  9; 0;  10; 0]%float.

Definition halving (y : list float) (window_length polyorder : Z)
  : result (list float) := inr ((fun v => v / 2)%float <$> y).

Definition jagged : list float := [5; 1; 4; 2; 9; 3; 0]%float.

(** Seven samples on rationals, flat but for a peak of 9 in the middle; and
    the same under twice the intensity on a baseline of 1 + 3 t. *)
Definition bump_intensities : list Qc :=
  Exact.Z2Qc <$> [0; 0; 0; 9; 0; 0; 0]%Z.

Definition tilted_intensities : list Qc :=
  Exact.Z2Qc <$> [1; 4; 7; 28; 13; 16; 19]%Z.

Definition on_index_grid (qs : list Qc) : ndarray Exact.xreal :=
  mk_ndarray [length qs; 2%nat]
    (interleave (Exact.Real ∘ Exact.Z2Qc <$> seqZ 0 (Z.of_nat (length qs)))
                (Exact.Real <$> qs)).

Definition bump : ndarray Exact.xreal := on_index_grid bump_intensities.
Definition tilted_bump : ndarray Exact.xreal :=
  on_index_grid tilted_intensities.


(** Rounds of the script: the spike scenario loaded and saved; a file of
    three columns; and a formatting of the numbers 0 to 10. *)
Definition spike_round : Session.round :=
  Session.mk_round "spike.txt" (inr Float64.spike) "spike_bkgrndsub.csv"
    None None.

Definition three_columns : ndarray float :=
  mk_ndarray [2%nat; 3%nat] [1; 2; 3; 4; 5; 6]%float.

Definition three_columns_round : Session.round :=
  Session.mk_round "wide.txt" (inr three_columns) "wide_bkgrndsub.csv"
    None None.

Definition small_numbers : list (float * string) :=
  [(0, "0"); (1, "1"); (2, "2"); (3, "3"); (4, "4"); (5, "5"); (6, "6");
   (7, "7"); (8, "8"); (9, "9"); (10, "10")]%float%string.

Definition format_small (v : float) : string :=
  match List.find (fun p => (v =? fst p)%float) small_numbers with
  | Some p => snd p
  | None => "nan"
  end.

Definition stem_of_spike (filename : string) : string := "spike".

(** The spike scenario as the script saves it: no sample is 15 rows from
    both ends, so every intensity is zero. *)
Definition flattened_spike : ndarray float :=
  mk_ndarray [11%nat; 2%nat]
    [0; 0;  1; 0;  2; 0;  3; 0;  4; 0;  5; 0;
     6; 0;  7; 0;  8; 0;  9; 0;  10; 0]%float.

(** * Facts that hold for every arithmetic *)

Section EstimatorFacts.
Context {F : Type} `{Arith F}.
Implicit Types (y p bg : list F) (i j k hw n idx : Z).

Lemma elem_of_py_range a b i : i ∈ py_range a b ↔ a <= i < b.
Proof. unfold py_range. rewrite elem_of_seqZ. lia. Qed.

Lemma py_range_empty a b : b <= a -> py_range a b = [].
Proof. intros. apply seqZ_nil. lia. Qed.

(** A loop whose body, on the states of an invariant, is a total function
    of the state is a left fold. *)
Lemma for_each_foldl {S : Type} (Inv : S -> Prop) (l : list Z)
    (body : Z -> S -> result S) (f : Z -> S -> S) (s : S) :
  (forall i s, i ∈ l -> Inv s -> body i s = inr (f i s) /\ Inv (f i s)) ->
  Inv s ->
  for_each l body s = inr (foldl (fun s i => f i s) s l)
  /\ Inv (foldl (fun s i => f i s) s l).
Proof.
  revert s. induction l as [|i l IH]; intros s Hbody Hs; simpl.
  - split; [reflexivity | assumption].
  - destruct (Hbody i s) as [-> Hs']; [left | assumption |].
    simpl. apply IH; [| assumption].
    intros i' s' Hi'. apply Hbody. now right.
Qed.

Lemma for_each_pure {S : Type} (l : list Z)
    (body : Z -> S -> result S) (f : Z -> S -> S) (s : S) :
  (forall i s, i ∈ l -> body i s = inr (f i s)) ->
  for_each l body s = inr (foldl (fun s i => f i s) s l).
Proof.
  intros Hbody.
  apply (for_each_foldl (fun _ => True) l body f s); [| exact I].
  intros i' s' Hi' _. split; [now apply Hbody | exact I].
Qed.

(** *** Indexing within bounds *)

Lemma normalize_index_in_bounds n idx :
  0 <= idx < n -> normalize_index n idx = inr (Z.to_nat idx).
Proof.
  intros Hidx. unfold normalize_index.
  destruct (0 <=? idx) eqn:E1; [| lia].
  destruct (idx <? n) eqn:E2; [reflexivity | lia].
Qed.

Lemma getitem_in_bounds y idx :
  0 <= idx < Z.of_nat (length y) ->
  getitem y idx = inr (y !!! Z.to_nat idx).
Proof.
  intros Hidx. unfold getitem.
  rewrite normalize_index_in_bounds by assumption. simpl.
  destruct (lookup_lt_is_Some_2 y (Z.to_nat idx)) as [v Hv]; [lia |].
  rewrite Hv. now rewrite (list_lookup_total_correct _ _ _ Hv).
Qed.

Lemma setitem_in_bounds bg idx v :
  0 <= idx < Z.of_nat (length bg) ->
  setitem bg idx v = inr (<[Z.to_nat idx := v]> bg).
Proof.
  intros Hidx. unfold setitem.
  now rewrite normalize_index_in_bounds by assumption.
Qed.

(** Every read of the inner loops, at an index of the outer loop, is of an
    element of the array: no index is negative (which numpy would count
    from the end) and none is past the end. *)
Lemma accesses_in_bounds n hw i j k :
  interior n hw i -> 1 <= j <= hw -> 1 <= k <= hw ->
  0 <= i - j <= n - 1 /\ 0 <= i + k <= n - 1.
Proof. unfold interior. lia. Qed.

Lemma candidate_interior y hw i j k :
  interior (Z.of_nat (length y)) hw i -> 1 <= j <= hw -> 1 <= k <= hw ->
  candidate y i j k = inr (interpolation y i j k).
Proof.
  intros Hi Hj Hk.
  destruct (accesses_in_bounds _ _ _ _ _ Hi Hj Hk) as [Hl Hr].
  unfold candidate, interpolation, true_div.
  rewrite !getitem_in_bounds by lia. simpl.
  destruct (k + j =? 0) eqn:E; [lia |]. simpl.
  now rewrite (Z.add_comm k j).
Qed.

(** *** The inner loops *)

Lemma foldl_bind {A B C : Type} (g : A -> B -> A) (h : C -> list B)
    (l : list C) (a : A) :
  foldl g a (l ≫= h) = foldl (fun a x => foldl g a (h x)) a l.
Proof.
  revert a. induction l as [|x l IH]; intros a; [reflexivity |].
  change ((x :: l) ≫= h) with (h x ++ (l ≫= h)).
  now rewrite foldl_app, IH.
Qed.

Lemma foldl_ext {A B : Type} (f g : A -> B -> A) (l : list B) (a : A) :
  (forall a x, f a x = g a x) -> foldl f a l = foldl g a l.
Proof.
  intros Hfg. revert a. induction l as [|x l IH]; intros a; simpl.
  - reflexivity.
  - now rewrite Hfg, IH.
Qed.

Lemma lowest_intensity_interior y hw i :
  interior (Z.of_nat (length y)) hw i ->
  lowest_intensity y hw i = inr (running_min (candidates y hw i)).
Proof.
  intros Hi. unfold lowest_intensity, running_min, candidates.
  rewrite (for_each_pure _ _
    (fun j low =>
       foldl (fun low k => keep_lower (interpolation y i j k) low) low
         (py_range 1 (hw + 1)))).
  - f_equal. rewrite foldl_bind.
    apply foldl_ext; intros low j.
    rewrite foldl_bind. apply foldl_ext; intros low' k. reflexivity.
  - intros j low Hj. apply elem_of_py_range in Hj.
    apply for_each_pure. intros k low' Hk. apply elem_of_py_range in Hk.
    rewrite (candidate_interior y hw) by (assumption || lia). reflexivity.
Qed.

(** *** The outer loop *)

Section Overwrite.
Variable g : Z -> F.

Let overwrite (bg : list F) (i : Z) : list F := <[Z.to_nat i := g i]> bg.

Lemma overwrite_length (l : list Z) bg :
  length (foldl overwrite bg l) = length bg.
Proof.
  revert bg. induction l as [|i l IH]; intros bg; simpl; [reflexivity |].
  rewrite IH. unfold overwrite. apply length_insert.
Qed.

Lemma overwrite_lookup_other (l : list Z) bg (t : nat) :
  (forall i, i ∈ l -> 0 <= i) -> Z.of_nat t ∉ l ->
  foldl overwrite bg l !! t = bg !! t.
Proof.
  revert bg. induction l as [|i l IH]; intros bg Hpos Ht; simpl;
    [reflexivity |].
  rewrite IH.
  - apply list_lookup_insert_ne. intros E. apply Ht, elem_of_cons. left.
    assert (0 <= i) by (apply Hpos, elem_of_cons; now left). lia.
  - intros i' Hi'. apply Hpos, elem_of_cons. now right.
  - intros Hin. apply Ht, elem_of_cons. now right.
Qed.

Lemma overwrite_lookup (l : list Z) bg (t : nat) :
  (forall i, i ∈ l -> 0 <= i) -> Z.of_nat t ∈ l -> (t < length bg)%nat ->
  foldl overwrite bg l !! t = Some (g (Z.of_nat t)).
Proof.
  revert bg. induction l as [|i l IH]; intros bg Hpos Ht Hlen; simpl.
  - inversion Ht.
  - assert (Hpos' : forall i', i' ∈ l -> 0 <= i')
      by (intros i' Hi'; apply Hpos, elem_of_cons; now right).
    destruct (decide (Z.of_nat t ∈ l)) as [Hin | Hout].
    + apply IH; [assumption .. |]. unfold overwrite. now rewrite length_insert.
    + rewrite overwrite_lookup_other by assumption.
      apply elem_of_cons in Ht as [E | Hin]; [subst i | contradiction].
      unfold overwrite. rewrite Nat2Z.id.
      now apply list_lookup_insert_eq.
Qed.

End Overwrite.

Lemma background_foldl p hw :
  0 <= hw ->
  background p hw
  = inr (foldl (overwrite_lowest p hw) p
           (py_range hw (Z.of_nat (length p) - hw))).
Proof.
  intros Hhw. unfold background.
  set (n := Z.of_nat (length p)).
  destruct (for_each_foldl (fun bg => length bg = length p)
              (py_range hw (n - hw))
              (fun i bg =>
                 let! low := lowest_intensity p hw i in setitem bg i low)
              (fun i bg => overwrite_lowest p hw bg i) p) as [Hrun _].
  - intros i bg Hi Hlen. apply elem_of_py_range in Hi.
    rewrite (lowest_intensity_interior p hw i) by exact Hi. simpl.
    rewrite setitem_in_bounds by (rewrite Hlen; fold n; lia).
    split; [reflexivity |]. unfold overwrite_lowest. now rewrite length_insert.
  - reflexivity.
  - exact Hrun.
Qed.

Lemma background_spec p hw :
  0 <= hw ->
  exists bg,
    background p hw = inr bg
    /\ length bg = length p
    /\ (forall t : nat,
          interior (Z.of_nat (length p)) hw (Z.of_nat t) ->
          bg !! t = Some (running_min (candidates p hw (Z.of_nat t))))
    /\ (forall t : nat,
          ~ interior (Z.of_nat (length p)) hw (Z.of_nat t) ->
          bg !! t = p !! t).
Proof.
  intros Hhw. eexists. split; [now apply background_foldl |].
  set (n := Z.of_nat (length p)).
  set (g := fun i => running_min (candidates p hw i)).
  assert (Hpos : forall i, i ∈ py_range hw (n - hw) -> 0 <= i)
    by (intros i Hi; apply elem_of_py_range in Hi; lia).
  split; [apply (overwrite_length g) |]. split.
  - intros t Ht.
    apply (overwrite_lookup g); [assumption | |].
    + now apply elem_of_py_range.
    + unfold interior in Ht. fold n in Ht. lia.
  - intros t Ht.
    apply (overwrite_lookup_other g); [assumption |].
    intros Hin. apply Ht. now apply elem_of_py_range in Hin.
Qed.

(** *** Columns, subtraction and stacking *)

Lemma column0_length (d : list F) (N : nat) :
  length d = (N * 2)%nat -> length (column0 d) = N.
Proof.
  revert d. induction N as [|N IH]; intros [|a [|b d]] Hd;
    simpl in *; try lia.
  f_equal. apply IH. lia.
Qed.

Lemma column1_length (d : list F) (N : nat) :
  length d = (N * 2)%nat -> length (column1 d) = N.
Proof.
  revert d. induction N as [|N IH]; intros [|a [|b d]] Hd;
    simpl in *; try lia.
  f_equal. apply IH. lia.
Qed.

Lemma column0_lookup (d : list F) (N t : nat) :
  length d = (N * 2)%nat -> column0 d !! t = d !! (2 * t)%nat.
Proof.
  revert d t. induction N as [|N IH]; intros [|a [|b d]] t Hd;
    simpl in Hd; try lia; [reflexivity |].
  destruct t as [|t]; [reflexivity |].
  replace (2 * S t)%nat with (S (S (2 * t))) by lia.
  cbn -[Nat.mul]. apply IH. lia.
Qed.

Lemma column1_lookup (d : list F) (N t : nat) :
  length d = (N * 2)%nat -> column1 d !! t = d !! (2 * t + 1)%nat.
Proof.
  revert d t. induction N as [|N IH]; intros [|a [|b d]] t Hd;
    simpl in Hd; try lia; [reflexivity |].
  destruct t as [|t]; [reflexivity |].
  replace (2 * S t + 1)%nat with (S (S (2 * t + 1))) by lia.
  cbn -[Nat.mul]. apply IH. lia.
Qed.

Lemma interleave_length (x c : list F) :
  length x = length c -> length (interleave x c) = (length x * 2)%nat.
Proof.
  revert c. induction x as [|a x IH]; intros [|b c] Hlen;
    simpl in *; try lia.
  rewrite IH; lia.
Qed.

Lemma column0_interleave (x c : list F) :
  length x = length c -> column0 (interleave x c) = x.
Proof.
  revert c. induction x as [|a x IH]; intros [|b c] Hlen;
    simpl in *; try lia; [reflexivity |].
  f_equal. apply IH. lia.
Qed.

Lemma column1_interleave (x c : list F) :
  length x = length c -> column1 (interleave x c) = c.
Proof.
  revert c. induction x as [|a x IH]; intros [|b c] Hlen;
    simpl in *; try lia; [reflexivity |].
  f_equal. apply IH. lia.
Qed.

Lemma subtract_length p bg :
  length bg = length p -> length (subtract p bg) = length p.
Proof.
  revert bg. induction p as [|a p IH]; intros [|b bg] Hlen;
    simpl in *; try lia.
  f_equal. apply IH. lia.
Qed.

Lemma subtract_lookup p bg (t : nat) (a b : F) :
  p !! t = Some a -> bg !! t = Some b ->
  subtract p bg !! t = Some (fsub a b).
Proof.
  revert bg t. induction p as [|a' p IH]; intros [|b' bg] [|t] Ha Hb;
    simpl in *; try discriminate.
  - congruence.
  - now apply IH.
Qed.

Lemma column_stack_same_length (x c : list F) :
  length x = length c ->
  column_stack x c = inr (mk_ndarray [length x; 2%nat] (interleave x c)).
Proof.
  intros Hlen. unfold column_stack.
  now rewrite (proj2 (Nat.eqb_eq _ _) Hlen).
Qed.

(** *** Validation *)

Lemma validate_accepts (N : nat) (w : Z) :
  2 <= w -> w mod 2 = 0 -> validate [N; 2%nat] w = inr tt.
Proof.
  intros Hw Heven. unfold validate. simpl.
  destruct (w <? 2) eqn:E; [lia |].
  now rewrite Heven.
Qed.

Lemma validate_bad_shape (sh : list nat) (w : Z) :
  length sh <> 2%nat \/ nth 1 sh 0%nat <> 2%nat ->
  validate sh w = inl InvalidShape.
Proof.
  intros Hbad. unfold validate.
  destruct (length sh =? 2)%nat eqn:E1; [| reflexivity].
  destruct (nth 1 sh 0%nat =? 2)%nat eqn:E2; [| reflexivity].
  apply Nat.eqb_eq in E1, E2. destruct Hbad; contradiction.
Qed.

Lemma validate_too_small (N : nat) (w : Z) :
  w < 2 -> validate [N; 2%nat] w = inl InvalidParameter_too_small.
Proof.
  intros Hw. unfold validate. simpl.
  destruct (w <? 2) eqn:E; [reflexivity | lia].
Qed.

Lemma validate_odd (N : nat) (w : Z) :
  2 <= w -> w mod 2 <> 0 -> validate [N; 2%nat] w = inl InvalidParameter_odd.
Proof.
  intros Hw Hodd. unfold validate. simpl.
  destruct (w <? 2) eqn:E; [lia |].
  destruct (w mod 2 =? 0) eqn:E2; [lia | reflexivity].
Qed.

(** *** The whole routine on a valid call *)

Section Routine.
Variable savgol_filter : list F -> Z -> Z -> result (list F).

(** On an (N,2) array with an even window of at least 2, where the
    preprocessing returns as many samples [p] as the array has rows, the
    routine returns the wavenumbers stacked with [p] minus the
    background. *)
Lemma routine_returns
    (a : ndarray F) (w : Z) (smooth : bool) (N : nat) (p : list F) :
  shape a = [N; 2%nat] -> well_formed a -> 2 <= w -> w mod 2 = 0 ->
  preprocess savgol_filter (column1 (data a)) smooth = inr p ->
  length p = N ->
  exists bg,
    background p (w / 2) = inr bg
    /\ length bg = N
    /\ remove_fluo_spectra_lowest_point savgol_filter a w smooth
       = inr (mk_ndarray [N; 2%nat]
                (interleave (column0 (data a)) (subtract p bg))).
Proof.
  intros Hshape Hwf Hw Heven Hpre Hp.
  assert (Hd : length (data a) = (N * 2)%nat)
    by (unfold well_formed in Hwf; rewrite Hshape in Hwf; simpl in Hwf; lia).
  assert (Hhw : 0 <= w / 2) by (apply Z.div_pos; lia).
  destruct (background_spec p _ Hhw) as (bg & Hbg & Hlen & _).
  exists bg. split; [exact Hbg |]. split; [congruence |].
  unfold remove_fluo_spectra_lowest_point.
  rewrite Hshape, validate_accepts by assumption. simpl.
  rewrite Hpre. simpl.
  rewrite Hbg. simpl.
  rewrite column_stack_same_length.
  - now rewrite (column0_length _ N Hd).
  - rewrite (column0_length _ N Hd), subtract_length; congruence.
Qed.

(** An exception of the smoother leaves the routine as it is: nothing
    catches it. *)
Lemma smoother_error_leaves_routine
    (a : ndarray F) (w : Z) (smooth : bool) (N : nat) (e : exn) :
  shape a = [N; 2%nat] -> 2 <= w -> w mod 2 = 0 ->
  preprocess savgol_filter (column1 (data a)) smooth = inl e ->
  remove_fluo_spectra_lowest_point savgol_filter a w smooth = inl e.
Proof.
  intros Hshape Hw Heven Hpre.
  unfold remove_fluo_spectra_lowest_point.
  rewrite Hshape, validate_accepts by assumption. simpl.
  now rewrite Hpre.
Qed.

(** Row by row: what the returned array holds, in terms of the preprocessed
    intensities [p] and the background [bg]. *)
Lemma routine_rows
    (a : ndarray F) (w : Z) (smooth : bool) (N : nat) (p : list F) :
  shape a = [N; 2%nat] -> well_formed a -> 2 <= w -> w mod 2 = 0 ->
  preprocess savgol_filter (column1 (data a)) smooth = inr p ->
  length p = N ->
  exists out bg,
    remove_fluo_spectra_lowest_point savgol_filter a w smooth = inr out
    /\ background p (w / 2) = inr bg
    /\ shape out = [N; 2%nat]
    /\ well_formed out
    /\ column0 (data out) = column0 (data a)
    /\ column1 (data out) = subtract p bg
    /\ length bg = N
    /\ (forall t : nat,
          interior (Z.of_nat N) (w / 2) (Z.of_nat t) ->
          bg !! t = Some (running_min (candidates p (w / 2) (Z.of_nat t))))
    /\ (forall t : nat,
          ~ interior (Z.of_nat N) (w / 2) (Z.of_nat t) ->
          bg !! t = p !! t).
Proof.
  intros Hshape Hwf Hw Heven Hpre Hp.
  destruct (routine_returns a w smooth N p Hshape Hwf Hw Heven Hpre Hp)
    as (bg & Hbg & Hlen & Hout).
  assert (Hhw : 0 <= w / 2) by (apply Z.div_pos; lia).
  destruct (background_spec p _ Hhw) as (bg' & Hbg' & _ & Hin & Hedge).
  assert (bg' = bg) by congruence. subst bg'.
  rewrite Hp in Hin, Hedge.
  assert (Hd : length (data a) = (N * 2)%nat)
    by (unfold well_formed in Hwf; rewrite Hshape in Hwf; simpl in Hwf; lia).
  assert (Hx : length (column0 (data a)) = length (subtract p bg))
    by (rewrite (column0_length _ N Hd), subtract_length; congruence).
  eexists; exists bg. split; [exact Hout |]. split; [exact Hbg |].
  simpl. split; [reflexivity |]. split.
  - unfold well_formed. simpl.
    rewrite interleave_length, (column0_length _ N Hd) by exact Hx. lia.
  - split; [now apply column0_interleave |].
    split; [now apply column1_interleave |].
    split; [exact Hlen |]. split; assumption.
Qed.

End Routine.

(** *** The scan for the least candidate *)

Lemma elem_of_candidates y hw i (c : F) :
  c ∈ candidates y hw i
  <-> exists j k, 1 <= j <= hw /\ 1 <= k <= hw /\ c = interpolation y i j k.
Proof.
  unfold candidates. rewrite list_elem_of_bind. split.
  - intros (j & Hc & Hj). apply list_elem_of_bind in Hc as (k & Hc & Hk).
    apply list_elem_of_singleton in Hc.
    apply elem_of_py_range in Hj, Hk.
    exists j, k. repeat split; (lia || assumption).
  - intros (j & k & Hj & Hk & ->). exists j. split.
    + apply list_elem_of_bind. exists k. split.
      * now apply list_elem_of_singleton.
      * apply elem_of_py_range; lia.
    + apply elem_of_py_range; lia.
Qed.

Lemma candidates_nonempty y hw i : 1 <= hw -> candidates y hw i <> [].
Proof.
  intros Hhw Hnil.
  assert (Hin : interpolation y i 1 1 ∈ candidates y hw i)
    by (apply elem_of_candidates; exists 1, 1; repeat split; lia).
  rewrite Hnil in Hin. inversion Hin.
Qed.

Lemma running_min_snoc (ts : list F) (t : F) :
  running_min (ts ++ [t]) = keep_lower t (running_min ts).
Proof. unfold running_min. now rewrite foldl_snoc. Qed.

(** When no comparison of line 48 succeeds, [lowest_intensity] is still the
    [np.inf] of line 40. *)
Lemma running_min_untouched (ts : list F) :
  (forall t, t ∈ ts -> flt t finf = false) -> running_min ts = finf.
Proof.
  induction ts as [|t ts IH] using rev_ind; intros Hall; [reflexivity |].
  rewrite running_min_snoc, IH.
  - unfold keep_lower. rewrite Hall; [reflexivity |].
    apply elem_of_app. right. now apply list_elem_of_singleton.
  - intros t' Ht'. apply Hall, elem_of_app. now left.
Qed.

End EstimatorFacts.

(** * Facts of binary64 arithmetic *)

Section Float64Facts.
Import Float64.
Local Open Scope float_scope.

(** Case analysis on the comparisons inside [SFcompare]. *)
Ltac sf_compare_cases :=
  repeat match goal with
  | |- context [Pos.compare_cont Eq ?a ?b] =>
      change (Pos.compare_cont Eq a b) with (Pos.compare a b)
  | H : context [Pos.compare_cont Eq ?a ?b] |- _ =>
      change (Pos.compare_cont Eq a b) with (Pos.compare a b) in H
  end;
  repeat match goal with
  | H : context [Z.compare ?a ?b] |- _ =>
      destruct (Z.compare_spec a b); simpl in H
  | H : context [Pos.compare ?a ?b] |- _ =>
      destruct (Pos.compare_spec a b); simpl in H
  | |- context [Z.compare ?a ?b] =>
      destruct (Z.compare_spec a b); simpl
  | |- context [Pos.compare ?a ?b] =>
      destruct (Pos.compare_spec a b); simpl
  end.

Lemma SFcompare_refl (x : spec_float) :
  x <> S754_nan -> SFcompare x x = Some Eq.
Proof.
  destruct x as [s|s| |s m e]; try destruct s; simpl; intros Hx;
    try congruence; sf_compare_cases; subst; auto; lia.
Qed.

Lemma SFltb_SFleb_trans (x y z : spec_float) :
  SFltb x y = true -> SFleb y z = true -> SFleb x z = true.
Proof.
  unfold SFltb, SFleb.
  destruct x as [sx|sx| |sx mx ex], y as [sy|sy| |sy my ey],
           z as [sz|sz| |sz mz ez];
    try destruct sx; try destruct sy; try destruct sz; simpl;
    intros Hxy Hyz; try discriminate; auto;
    sf_compare_cases; subst; try discriminate; auto; lia.
Qed.

Lemma SFltb_false_SFleb (x y : spec_float) :
  x <> S754_nan -> y <> S754_nan -> SFltb x y = false -> SFleb y x = true.
Proof.
  unfold SFltb, SFleb.
  destruct x as [sx|sx| |sx mx ex], y as [sy|sy| |sy my ey];
    try destruct sx; try destruct sy; simpl; intros Hx Hy;
    try congruence; sf_compare_cases; subst; try congruence; lia.
Qed.

Lemma Prim2SF_infinity : Prim2SF infinity = S754_infinity false.
Proof. reflexivity. Qed.

Lemma Prim2SF_zero : Prim2SF 0 = S754_zero false.
Proof. reflexivity. Qed.

Lemma is_nan_false (x : float) :
  is_nan x = false <-> Prim2SF x <> S754_nan.
Proof.
  unfold is_nan. rewrite FloatAxioms.eqb_spec. unfold SFeqb. split.
  - intros Hx E. rewrite E in Hx. discriminate.
  - intros Hx. now rewrite SFcompare_refl.
Qed.

Lemma is_nan_true (x : float) : is_nan x = true <-> x = nan.
Proof.
  split.
  - intros Hx. apply Prim2SF_inj.
    destruct (Prim2SF x) eqn:E; try reflexivity;
      assert (Hn : is_nan x = false)
        by (apply is_nan_false; rewrite E; discriminate);
      congruence.
  - now intros ->.
Qed.

(** The classes of the binary64 numbers that are neither NaN nor infinite. *)
Lemma is_finite_cases (x : float) :
  is_finite x = true ->
  (exists s, Prim2SF x = S754_zero s)
  \/ (exists s m e, Prim2SF x = S754_finite s m e).
Proof.
  unfold is_finite, is_infinity. intros Hfin.
  apply negb_true_iff, orb_false_iff in Hfin as [Hnan Hinf].
  apply is_nan_false in Hnan.
  rewrite FloatAxioms.eqb_spec, FloatAxioms.abs_spec, Prim2SF_infinity in Hinf.
  destruct (Prim2SF x) as [s|s| |s m e]; eauto.
  - discriminate.
  - contradiction.
Qed.

Lemma is_finite_not_nan (x : float) : is_finite x = true -> is_nan x = false.
Proof.
  unfold is_finite. intros Hfin.
  now apply negb_true_iff, orb_false_iff in Hfin as [? _].
Qed.

(** *** The order on the numbers that are not NaN *)

Lemma leb_refl (x : float) : is_nan x = false -> (x <=? x) = true.
Proof.
  intros Hx. apply is_nan_false in Hx.
  rewrite FloatAxioms.leb_spec. unfold SFleb. now rewrite SFcompare_refl.
Qed.

Lemma ltb_leb_trans (x y z : float) :
  (x <? y) = true -> (y <=? z) = true -> (x <=? z) = true.
Proof. rewrite FloatAxioms.ltb_spec, !FloatAxioms.leb_spec. apply SFltb_SFleb_trans. Qed.

Lemma ltb_leb (x y : float) : (x <? y) = true -> (x <=? y) = true.
Proof.
  rewrite FloatAxioms.ltb_spec, FloatAxioms.leb_spec. unfold SFltb, SFleb.
  now destruct (SFcompare _ _) as [[]|].
Qed.

Lemma ltb_false_leb (x y : float) :
  is_nan x = false -> is_nan y = false ->
  (x <? y) = false -> (y <=? x) = true.
Proof.
  rewrite !is_nan_false, FloatAxioms.ltb_spec, FloatAxioms.leb_spec. apply SFltb_false_SFleb.
Qed.

Lemma ltb_not_nan (x y : float) : (x <? y) = true -> is_nan x = false.
Proof.
  rewrite FloatAxioms.ltb_spec, is_nan_false. unfold SFltb. intros Hlt E.
  rewrite E in Hlt. discriminate.
Qed.

(** Nothing but [+infinity] is at or above [+infinity]. *)
Lemma infinity_leb_inv (x : float) :
  (infinity <=? x) = true -> x = infinity.
Proof.
  rewrite FloatAxioms.leb_spec, Prim2SF_infinity. intros Hle.
  apply Prim2SF_inj. rewrite Prim2SF_infinity.
  unfold SFleb in Hle.
  destruct (Prim2SF x) as [s|s| |s m e]; try destruct s;
    simpl in Hle; congruence.
Qed.

(** *** Two subtractions *)

(** [x - x] is [+0] for every finite [x], of either sign. *)
Lemma sub_diag_finite (x : float) : is_finite x = true -> x - x = 0.
Proof.
  intros Hx. apply Prim2SF_inj. rewrite sub_spec, Prim2SF_zero.
  destruct (is_finite_cases x Hx) as [[s ->] | (s & m & e & ->)].
  - now destruct s.
  - unfold SF64sub, SFsub. now rewrite Z.sub_diag.
Qed.

(** [x - inf] is [-inf] or NaN, whatever [x] is. *)
Lemma sub_infinity (x : float) :
  x - infinity = neg_infinity \/ x - infinity = nan.
Proof.
  assert (Hsub : Prim2SF (x - infinity) = S754_infinity true
                 \/ Prim2SF (x - infinity) = S754_nan).
  { rewrite sub_spec, Prim2SF_infinity. unfold SF64sub.
    destruct (Prim2SF x) as [s|s| |s m e]; try destruct s; simpl; auto. }
  destruct Hsub as [E | E]; [left | right]; apply Prim2SF_inj; now rewrite E.
Qed.

Lemma sub_infinity_not_finite (x : float) : is_finite (x - infinity) = false.
Proof. now destruct (sub_infinity x) as [-> | ->]. Qed.

(** *** The scan finds the least candidate *)

Lemma keep_lower_cases (t low : float) :
  (keep_lower t low = t /\ (t <? low) = true)
  \/ (keep_lower t low = low /\ (t <? low) = false).
Proof.
  unfold keep_lower. simpl. destruct (t <? low); [left | right]; now split.
Qed.

(** What the scan of lines 48-49 leaves, whatever the candidates are: a
    number that is not NaN, at or below every candidate that is not NaN, and
    either one of the candidates or the [+infinity] the scan starts with. *)
Lemma running_min_spec (ts : list float) :
  is_nan (running_min ts) = false
  /\ (forall t, t ∈ ts -> is_nan t = false -> (running_min ts <=? t) = true)
  /\ (running_min ts = infinity \/ running_min ts ∈ ts).
Proof.
  induction ts as [|t ts IH] using rev_ind.
  - split; [reflexivity |]. split; [| now left].
    intros t Ht. inversion Ht.
  - destruct IH as (Hnan & Hle & Hmem).
    rewrite running_min_snoc.
    destruct (keep_lower_cases t (running_min ts)) as [[-> Hlt] | [-> Hlt]].
    + assert (Ht : is_nan t = false) by exact (ltb_not_nan _ _ Hlt).
      split; [exact Ht |]. split.
      * intros t' Ht' Hn'. apply elem_of_app in Ht' as [Ht' | Ht'].
        -- apply (ltb_leb_trans _ _ _ Hlt). now apply Hle.
        -- apply list_elem_of_singleton in Ht' as ->. now apply leb_refl.
      * right. apply elem_of_app. right. now apply list_elem_of_singleton.
    + split; [assumption |]. split.
      * intros t' Ht' Hn'. apply elem_of_app in Ht' as [Ht' | Ht'].
        -- now apply Hle.
        -- apply list_elem_of_singleton in Ht' as ->.
           now apply ltb_false_leb.
      * destruct Hmem as [Hinf | Hin]; [now left |].
        right. apply elem_of_app. now left.
Qed.

(** Without NaN among them, the scan leaves the least of the candidates. *)
Lemma running_min_least (ts : list float) :
  ts <> [] ->
  (forall t, t ∈ ts -> is_nan t = false) ->
  running_min ts ∈ ts /\ (forall t, t ∈ ts -> (running_min ts <=? t) = true).
Proof.
  intros Hne Hts.
  destruct (running_min_spec ts) as (_ & Hle & Hmem).
  assert (Hle' : forall t, t ∈ ts -> (running_min ts <=? t) = true)
    by (intros t Ht; apply Hle; [exact Ht | now apply Hts]).
  split; [| exact Hle'].
  destruct Hmem as [Hinf | Hin]; [| exact Hin].
  destruct ts as [|t ts]; [contradiction |].
  assert (Ht : t ∈ t :: ts) by (apply elem_of_cons; now left).
  specialize (Hle' t Ht). rewrite Hinf in Hle'.
  apply infinity_leb_inv in Hle'. rewrite Hinf, <- Hle'. exact Ht.
Qed.

End Float64Facts.

(** * The estimator on binary64 numbers *)

Section Float64Claims.
Import Float64.
Local Open Scope float_scope.
Variable savgol_filter : list float -> Z -> Z -> result (list float).

(** On an unsmoothed call the preprocessed intensities are the intensity
    column. *)
Lemma unsmoothed_rows (a : ndarray float) (w : Z) (N : nat) :
  shape a = [N; 2%nat] -> well_formed a -> (2 <= w)%Z -> (w mod 2 = 0)%Z ->
  exists out bg,
    remove_fluo_spectra_lowest_point savgol_filter a w false = inr out
    /\ background (column1 (data a)) (w / 2) = inr bg
    /\ shape out = [N; 2%nat]
    /\ column1 (data out) = subtract (column1 (data a)) bg
    /\ length (column1 (data a)) = N
    /\ (forall t : nat,
          interior (Z.of_nat N) (w / 2) (Z.of_nat t) ->
          bg !! t
          = Some (running_min (candidates (column1 (data a)) (w / 2)
                                 (Z.of_nat t))))
    /\ (forall t : nat,
          ~ interior (Z.of_nat N) (w / 2) (Z.of_nat t) ->
          bg !! t = column1 (data a) !! t).
Proof.
  intros Hshape Hwf Hw Heven.
  assert (Hy : length (column1 (data a)) = N).
  { apply column1_length. unfold well_formed in Hwf.
    rewrite Hshape in Hwf. simpl in Hwf. lia. }
  destruct (routine_rows savgol_filter a w false N _ Hshape Hwf Hw Heven
              eq_refl Hy)
    as (out & bg & Hout & Hbg & Hsh & _ & _ & Hc1 & _ & Hin & Hedge).
  exists out, bg. repeat split; assumption.
Qed.

(** At every index of the outer loop, whatever the intensities: the
    background is not NaN, it is at or below every candidate that is not
    NaN, and it is one of the candidates or [+infinity]. *)
Lemma background_below_comparable_candidates
    (a : ndarray float) (w : Z) (N t : nat) :
  shape a = [N; 2%nat] -> well_formed a -> (2 <= w)%Z -> (w mod 2 = 0)%Z ->
  interior (Z.of_nat N) (w / 2) (Z.of_nat t) ->
  exists bg b,
    background (column1 (data a)) (w / 2) = inr bg
    /\ bg !! t = Some b
    /\ is_nan b = false
    /\ (forall j k c, (1 <= j <= w / 2)%Z -> (1 <= k <= w / 2)%Z ->
          candidate (column1 (data a)) (Z.of_nat t) j k = inr c ->
          is_nan c = false -> (b <=? c) = true)
    /\ (b = infinity
        \/ exists j k, (1 <= j <= w / 2)%Z /\ (1 <= k <= w / 2)%Z
                       /\ candidate (column1 (data a)) (Z.of_nat t) j k
                          = inr b).
Proof.
  intros Hshape Hwf Hw Heven Hi.
  destruct (unsmoothed_rows a w N Hshape Hwf Hw Heven)
    as (out & bg & _ & Hbg & _ & _ & Hy & Hin & _).
  assert (Hcand : forall j k, (1 <= j <= w / 2)%Z -> (1 <= k <= w / 2)%Z ->
    candidate (column1 (data a)) (Z.of_nat t) j k
    = inr (interpolation (column1 (data a)) (Z.of_nat t) j k)).
  { intros j k Hj Hk. apply (candidate_interior _ (w / 2)); try assumption.
    now rewrite Hy. }
  destruct (running_min_spec
              (candidates (column1 (data a)) (w / 2) (Z.of_nat t)))
    as (Hnan & Hle & Hmem).
  exists bg, (running_min
                (candidates (column1 (data a)) (w / 2) (Z.of_nat t))).
  split; [exact Hbg |]. split; [now apply Hin |]. split; [exact Hnan |].
  split.
  - intros j k c Hj Hk Hc Hn. rewrite (Hcand j k Hj Hk) in Hc.
    injection Hc as <-. apply Hle; [| exact Hn].
    apply elem_of_candidates. now exists j, k.
  - destruct Hmem as [Hinf | Hin']; [now left | right].
    apply elem_of_candidates in Hin' as (j & k & Hj & Hk & Hb).
    exists j, k. split; [exact Hj |]. split; [exact Hk |].
    rewrite Hb. now apply Hcand.
Qed.

(** C1, as amended. On an unsmoothed call with an even window of at least
    2, at an index [t] of the outer loop where no candidate is NaN, the
    background is the least of the candidates
    [(y[t+k] - y[t-j]) * (j / (j + k)) + y[t-j]] over [j], [k] in
    [[1, half_width]]: it is one of them and it is at or below each; and the
    returned intensity at [t] is [y[t]] minus it. *)
Theorem background_is_least_candidate
    (a : ndarray float) (w : Z) (N t : nat) :
  shape a = [N; 2%nat] -> well_formed a -> (2 <= w)%Z -> (w mod 2 = 0)%Z ->
  interior (Z.of_nat N) (w / 2) (Z.of_nat t) ->
  (forall j k c, (1 <= j <= w / 2)%Z -> (1 <= k <= w / 2)%Z ->
     candidate (column1 (data a)) (Z.of_nat t) j k = inr c ->
     is_nan c = false) ->
  background_is_least savgol_filter a w t.
Proof.
  intros Hshape Hwf Hw Heven Hi Hnan.
  assert (Hcand : forall j k, (1 <= j <= w / 2)%Z -> (1 <= k <= w / 2)%Z ->
    candidate (column1 (data a)) (Z.of_nat t) j k
    = inr (interpolation (column1 (data a)) (Z.of_nat t) j k)).
  { intros j k Hj Hk. apply (candidate_interior _ (w / 2)); try assumption.
    rewrite column1_length with (N := N); [exact Hi |].
    unfold well_formed in Hwf. rewrite Hshape in Hwf. simpl in Hwf. lia. }
  destruct (unsmoothed_rows a w N Hshape Hwf Hw Heven)
    as (out & bg & Hout & Hbg & _ & Hc1 & Hy & Hin & _).
  assert (Hhw : (1 <= w / 2)%Z) by (apply Z.div_le_lower_bound; lia).
  destruct (lookup_lt_is_Some_2 (column1 (data a)) t) as [yt Hyt].
  { rewrite Hy. unfold interior in Hi. lia. }
  destruct (running_min_least
              (candidates (column1 (data a)) (w / 2) (Z.of_nat t)))
    as [Hmem Hle].
  { now apply candidates_nonempty. }
  { intros c Hc. apply elem_of_candidates in Hc as (j & k & Hj & Hk & ->).
    apply (Hnan j k); try assumption. now apply Hcand. }
  exists out, bg,
    (running_min (candidates (column1 (data a)) (w / 2) (Z.of_nat t))), yt.
  split; [exact Hout |]. split; [exact Hbg |].
  split; [now apply Hin |]. split; [exact Hyt |]. split.
  - split.
    + apply elem_of_candidates in Hmem as (j & k & Hj & Hk & Hb).
      exists j, k. rewrite Hb.
      split; [exact Hj |]. split; [exact Hk |]. now apply Hcand.
    + intros j k Hj Hk. eexists. split; [now apply Hcand |].
      apply Hle, elem_of_candidates. now exists j, k.
  - rewrite Hc1. exact (subtract_lookup _ _ _ _ _ Hyt (Hin t Hi)).
Qed.

(** C2. On an unsmoothed call with an even window of at least 2, at an index
    [t] within [half_width] of either end, the background is the input
    intensity itself, and where that is finite the returned intensity is
    exactly zero. *)
Theorem edge_rows_subtract_to_zero
    (a : ndarray float) (w : Z) (N t : nat) (yt : float) :
  shape a = [N; 2%nat] -> well_formed a -> (2 <= w)%Z -> (w mod 2 = 0)%Z ->
  (Z.of_nat t < w / 2 \/ Z.of_nat N - w / 2 <= Z.of_nat t)%Z ->
  column1 (data a) !! t = Some yt ->
  is_finite yt = true ->
  exists out bg,
    remove_fluo_spectra_lowest_point savgol_filter a w false = inr out
    /\ background (column1 (data a)) (w / 2) = inr bg
    /\ bg !! t = Some yt
    /\ column1 (data out) !! t = Some 0.
Proof.
  intros Hshape Hwf Hw Heven Hedge Hyt Hfin.
  destruct (unsmoothed_rows a w N Hshape Hwf Hw Heven)
    as (out & bg & Hout & Hbg & _ & Hc1 & _ & _ & Hcopy).
  assert (Hbgt : bg !! t = Some yt).
  { rewrite Hcopy; [exact Hyt |]. unfold interior. lia. }
  exists out, bg. repeat split; try assumption.
  rewrite Hc1, <- (sub_diag_finite yt Hfin).
  exact (subtract_lookup _ _ _ _ _ Hyt Hbgt).
Qed.

(** C8, as amended. Whatever the intensities are, NaN and the infinities
    included: where the preprocessing returns, as it does on every call that
    does not smooth, a call on an (N,2) array with an even window of at
    least 2 returns; and at an index of the outer loop where every comparison
    of line 48 is false, the background is still [+infinity] and the
    returned intensity is not a finite number. *)
Theorem nonfinite_values_propagate
    (a : ndarray float) (w : Z) (smooth : bool) (N : nat) (p : list float) :
  shape a = [N; 2%nat] -> well_formed a -> (2 <= w)%Z -> (w mod 2 = 0)%Z ->
  preprocess savgol_filter (column1 (data a)) smooth = inr p ->
  length p = N ->
  exists out bg,
    remove_fluo_spectra_lowest_point savgol_filter a w smooth = inr out
    /\ background p (w / 2) = inr bg
    /\ forall t : nat,
         interior (Z.of_nat N) (w / 2) (Z.of_nat t) ->
         (forall j k c, (1 <= j <= w / 2)%Z -> (1 <= k <= w / 2)%Z ->
            candidate p (Z.of_nat t) j k = inr c ->
            (c <? infinity) = false) ->
         bg !! t = Some infinity
         /\ exists v, column1 (data out) !! t = Some v
                      /\ is_finite v = false.
Proof.
  intros Hshape Hwf Hw Heven Hpre Hp.
  destruct (routine_rows savgol_filter a w smooth N p Hshape Hwf Hw Heven
              Hpre Hp)
    as (out & bg & Hout & Hbg & _ & _ & _ & Hc1 & _ & Hin & _).
  exists out, bg. split; [exact Hout |]. split; [exact Hbg |].
  intros t Ht Hcmp.
  assert (Hhw : (1 <= w / 2)%Z) by (apply Z.div_le_lower_bound; lia).
  assert (Hbgt : bg !! t = Some infinity).
  { rewrite (Hin t Ht).
    refine (f_equal Some (running_min_untouched _ _)).
    intros c Hc. apply elem_of_candidates in Hc as (j & k & Hj & Hk & ->).
    apply (Hcmp j k); try assumption.
    apply (candidate_interior _ (w / 2)); try assumption. now rewrite Hp. }
  split; [exact Hbgt |].
  destruct (lookup_lt_is_Some_2 p t) as [pt Hpt].
  { rewrite Hp. unfold interior in Ht. lia. }
  exists (pt - infinity). split.
  - rewrite Hc1. exact (subtract_lookup _ _ _ _ _ Hpt Hbgt).
  - apply sub_infinity_not_finite.
Qed.

(** C7. The concrete scenario: intensities [0,0,0,0,0,10,0,0,0,0,0] at
    wavenumbers 0..10, window 4, no smoothing. The background is 0 at every
    index, index 5 included, so the returned intensity is 10 at index 5 and
    0 at every other index, and the wavenumbers are returned as given. *)
Theorem spike_survives :
  background (column1 (data spike)) (4 / 2)
  = inr [0; 0; 0; 0; 0; 0; 0; 0; 0; 0; 0]
  /\ remove_fluo_spectra_lowest_point savgol_filter spike 4 false
     = inr (mk_ndarray [11%nat; 2%nat]
              [0; 0;  1; 0;  2; 0;  3; 0;  4; 0;  5; 10;
               6; 0;  7; 0;  8; 0;  9; 0;  10; 0]).
Proof. split; vm_compute; reflexivity. Qed.

(** C10, as amended. On an unsmoothed call with an even window of at least
    2, every read [y[i-j]] and [y[i+k]] of the loops is at an index in
    [0..N-1] and succeeds, and the call returns. When [N <= window_width]
    the outer loop has no index, and every returned intensity is the input
    intensity minus itself: zero wherever the input intensity is finite. *)
Theorem reads_stay_in_bounds (a : ndarray float) (w : Z) (N : nat) :
  shape a = [N; 2%nat] -> well_formed a -> (2 <= w)%Z -> (w mod 2 = 0)%Z ->
  (forall i j k,
     i ∈ py_range (w / 2) (Z.of_nat N - w / 2) ->
     j ∈ py_range 1 (w / 2 + 1) ->
     k ∈ py_range 1 (w / 2 + 1) ->
     (0 <= i - j <= Z.of_nat N - 1)%Z
     /\ (0 <= i + k <= Z.of_nat N - 1)%Z
     /\ candidate (column1 (data a)) i j k
        = inr (interpolation (column1 (data a)) i j k))
  /\ exists out,
       remove_fluo_spectra_lowest_point savgol_filter a w false = inr out
       /\ ((Z.of_nat N <= w)%Z ->
           py_range (w / 2) (Z.of_nat N - w / 2) = []
           /\ forall (t : nat) (yt : float),
                column1 (data a) !! t = Some yt ->
                column1 (data out) !! t = Some (yt - yt)
                /\ (is_finite yt = true ->
                    column1 (data out) !! t = Some 0)).
Proof.
  intros Hshape Hwf Hw Heven.
  destruct (unsmoothed_rows a w N Hshape Hwf Hw Heven)
    as (out & bg & Hout & Hbg & _ & Hc1 & Hy & _ & Hcopy).
  split.
  - intros i j k Hi Hj Hk. apply elem_of_py_range in Hi, Hj, Hk.
    assert (Hint : interior (Z.of_nat N) (w / 2) i) by exact Hi.
    destruct (accesses_in_bounds _ _ _ j k Hint) as [Hl Hr]; [lia .. |].
    repeat split; try lia.
    apply (candidate_interior _ (w / 2)); [now rewrite Hy | lia | lia].
  - exists out. split; [exact Hout |]. intros HN.
    assert (Hhalf : (w = 2 * (w / 2))%Z)
      by (rewrite (Z.div_mod w 2) at 1; lia).
    split; [apply py_range_empty; lia |].
    intros t yt Hyt.
    assert (Hbgt : bg !! t = Some yt).
    { rewrite Hcopy; [exact Hyt |]. unfold interior. lia. }
    assert (Hsub : column1 (data out) !! t = Some (yt - yt)).
    { rewrite Hc1. exact (subtract_lookup _ _ _ _ _ Hyt Hbgt). }
    split; [exact Hsub |].
    intros Hfin. now rewrite <- (sub_diag_finite yt Hfin).
Qed.

End Float64Claims.

(** ** The binary64 theorems at concrete spectra *)

Section Float64Examples.
Import Float64.
Local Open Scope float_scope.

Lemma background_is_least_candidate_at_spike :
  background_is_least no_smoothing spike 4 5.
Proof.
  apply (background_is_least_candidate no_smoothing spike 4 11 5).
  - reflexivity.
  - reflexivity.
  - lia.
  - reflexivity.
  - unfold interior. change (4 / 2)%Z with 2%Z. lia.
  - intros j k c Hj Hk. change (4 / 2)%Z with 2%Z in Hj, Hk.
    assert (Ej : j = 1%Z \/ j = 2%Z) by lia.
    assert (Ek : k = 1%Z \/ k = 2%Z) by lia.
    destruct Ej as [-> | ->], Ek as [-> | ->];
      vm_compute; intros Hc; injection Hc as <-; reflexivity.
Defined.

(** C1 as stated fails where a candidate is NaN: with intensities
    [nan, 5, nan] and window 2, the one candidate at index 1 is NaN, the
    comparison of line 48 is false, the background stays [+infinity], which
    is not a candidate, and [+infinity <= nan] is false. *)
Lemma background_not_least_at_nan_window :
  shape nan_window = [3%nat; 2%nat]
  /\ well_formed nan_window
  /\ interior 3 (2 / 2) 1
  /\ ~ background_is_least no_smoothing nan_window 2 1.
Proof.
  split; [reflexivity |]. split; [reflexivity |].
  split; [unfold interior; change (2 / 2)%Z with 1%Z; lia |].
  intros (out & bg & b & yt & _ & Hbg & Hb & _ & [_ Hle] & _).
  vm_compute in Hbg. injection Hbg as <-.
  vm_compute in Hb. injection Hb as <-.
  change (2 / 2)%Z with 1%Z in Hle.
  destruct (Hle 1%Z 1%Z ltac:(lia) ltac:(lia)) as (c & Hc & Hbc).
  vm_compute in Hc. injection Hc as <-.
  vm_compute in Hbc. discriminate.
Qed.

Lemma edge_rows_subtract_to_zero_at_spike :
  exists out bg,
    remove_fluo_spectra_lowest_point no_smoothing spike 4 false = inr out
    /\ background (column1 (data spike)) (4 / 2) = inr bg
    /\ bg !! 10%nat = Some 0
    /\ column1 (data out) !! 10%nat = Some 0.
Proof.
  apply (edge_rows_subtract_to_zero no_smoothing spike 4 11 10 0).
  - reflexivity.
  - reflexivity.
  - lia.
  - reflexivity.
  - right. change (4 / 2)%Z with 2%Z. lia.
  - reflexivity.
  - reflexivity.
Defined.

Lemma nonfinite_values_propagate_at_nan_window :
  exists out bg,
    remove_fluo_spectra_lowest_point no_smoothing nan_window 2 false = inr out
    /\ background (column1 (data nan_window)) (2 / 2) = inr bg
    /\ bg !! 1%nat = Some infinity
    /\ exists v, column1 (data out) !! 1%nat = Some v
                 /\ is_finite v = false.
Proof.
  destruct (nonfinite_values_propagate no_smoothing nan_window 2 false 3
              (column1 (data nan_window)))
    as (out & bg & Hout & Hbg & Hrow).
  - reflexivity.
  - reflexivity.
  - lia.
  - reflexivity.
  - reflexivity.
  - reflexivity.
  - exists out, bg. split; [exact Hout |]. split; [exact Hbg |].
    apply (Hrow 1%nat).
    + unfold interior. change (2 / 2)%Z with 1%Z. lia.
    + intros j k c Hj Hk. change (2 / 2)%Z with 1%Z in Hj, Hk.
      assert (Ej : j = 1%Z) by lia. assert (Ek : k = 1%Z) by lia.
      rewrite Ej, Ek. vm_compute. intros Hc. injection Hc as <-.
      reflexivity.
Defined.

(** C8 as stated fails on a call that smooths: the smoother raises on an
    intensity that is not finite among the samples its edge fit reads, and
    the routine lets the exception through. With the first intensity NaN the
    call raises; with that one intensity finite it returns. *)
Lemma nan_raises_under_smoothing :
  shape nan_edge = [11%nat; 2%nat]
  /\ well_formed nan_edge
  /\ column0 (data nan_edge) = column0 (data index_ramp)
  /\ drop 1 (column1 (data nan_edge)) = drop 1 (column1 (data index_ramp))
  /\ (exists msg,
        remove_fluo_spectra_lowest_point edge_checked_smoother nan_edge
          4 true = inl (ValueError msg))
  /\ (exists out,
        remove_fluo_spectra_lowest_point edge_checked_smoother index_ramp
          4 true = inr out)
  /\ (exists out,
        remove_fluo_spectra_lowest_point edge_checked_smoother nan_edge
          4 false = inr out).
Proof.
  repeat split; try reflexivity.
  - eexists. vm_compute. reflexivity.
  - eexists. vm_compute. reflexivity.
  - eexists. vm_compute. reflexivity.
Qed.

Lemma reads_stay_in_bounds_at_nan_sample :
  (forall i j k,
     i ∈ py_range (2 / 2) (1 - 2 / 2) ->
     j ∈ py_range 1 (2 / 2 + 1) ->
     k ∈ py_range 1 (2 / 2 + 1) ->
     (0 <= i - j <= 1 - 1)%Z
     /\ (0 <= i + k <= 1 - 1)%Z
     /\ candidate (column1 (data nan_sample)) i j k
        = inr (interpolation (column1 (data nan_sample)) i j k))
  /\ exists out,
       remove_fluo_spectra_lowest_point no_smoothing nan_sample 2 false
       = inr out
       /\ ((1 <= 2)%Z ->
           py_range (2 / 2) (1 - 2 / 2) = []
           /\ forall (t : nat) (yt : float),
                column1 (data nan_sample) !! t = Some yt ->
                column1 (data out) !! t = Some (yt - yt)
                /\ (is_finite yt = true ->
                    column1 (data out) !! t = Some 0)).
Proof.
  apply (reads_stay_in_bounds no_smoothing nan_sample 2 1).
  - reflexivity.
  - reflexivity.
  - lia.
  - reflexivity.
Defined.

(** C10 as stated fails where an intensity is not finite: one sample with
    intensity NaN and window 2 is returned with intensity [nan - nan], which
    is NaN and not zero. *)
Lemma nan_sample_not_zeroed :
  shape nan_sample = [1%nat; 2%nat]
  /\ well_formed nan_sample
  /\ (Z.of_nat 1 <= 2)%Z
  /\ exists out,
       remove_fluo_spectra_lowest_point no_smoothing nan_sample 2 false
       = inr out
       /\ ~ all_intensities_zero out.
Proof.
  split; [reflexivity |]. split; [reflexivity |]. split; [simpl; lia |].
  eexists. split; [vm_compute; reflexivity |].
  intros Hzero. specialize (Hzero 0%nat nan eq_refl).
  vm_compute in Hzero. discriminate.
Qed.

(** The linear-ramp scenario in binary64: with intensity equal to the index
    and window 4 every product is exact, and the returned intensities are
    exactly zero. *)
Example index_ramp_subtracts_to_zero :
  option_map (fun out => column1 (data out))
    (match remove_fluo_spectra_lowest_point no_smoothing index_ramp 4 false
     with inr out => Some out | inl _ => None end)
  = Some [0; 0; 0; 0; 0; 0; 0; 0; 0; 0; 0].
Proof. vm_compute. reflexivity. Qed.

(** With slope 1/10 the products round, and the returned intensity at
    index 2 is a rounding residue, not zero: the linear-ramp property is
    one of exact arithmetic. *)
Example tenth_ramp_leaves_a_residue :
  exists out v,
    remove_fluo_spectra_lowest_point no_smoothing tenth_ramp 4 false = inr out
    /\ column1 (data out) !! 2%nat = Some v
    /\ (0 <? v) = true.
Proof.
  eexists. eexists. split; [vm_compute; reflexivity |].
  split; reflexivity.
Qed.

End Float64Examples.

(** * The estimator in exact arithmetic *)

Section ExactClaims.
Import Exact.
Local Open Scope Qc_scope.
Variable savgol_filter : list xreal -> Z -> Z -> result (list xreal).

Lemma Z2Qc_add (a b : Z) : Z2Qc (a + b) = Z2Qc a + Z2Qc b.
Proof.
  apply Qc_is_canon. unfold Z2Qc. simpl.
  rewrite !Qred_correct, inject_Z_plus. reflexivity.
Qed.

Lemma Z2Qc_sub (a b : Z) : Z2Qc (a - b) = Z2Qc a - Z2Qc b.
Proof.
  apply Qc_is_canon. unfold Z2Qc, Qcminus. simpl.
  rewrite !Qred_correct.
  unfold Z.sub. rewrite inject_Z_plus, inject_Z_opp. reflexivity.
Qed.

Lemma Z2Qc_nonzero (a : Z) : (a <> 0)%Z -> Z2Qc a <> 0.
Proof.
  intros Ha E. apply Ha.
  apply (f_equal this) in E. unfold Z2Qc in E. simpl in E.
  assert (Hq : (Qred (inject_Z a) == 0)%Q) by now rewrite E.
  rewrite Qred_correct in Hq. unfold Qeq in Hq. simpl in Hq. lia.
Qed.

Lemma Qc_is_zero_false (q : Qc) : q <> 0 -> Qc_is_zero q = false.
Proof.
  intros Hq. unfold Qc_is_zero.
  destruct (q ?= 0) eqn:E; try reflexivity.
  apply Qceq_alt in E. contradiction.
Qed.

(** The line through two points of a ramp passes through the ramp. *)
Lemma ramp_interpolation (c0 c1 T J K : Qc) :
  J + K <> 0 ->
  (c0 + c1 * (T + K) - (c0 + c1 * (T - J))) * (J / (J + K))
  + (c0 + c1 * (T - J))
  = c0 + c1 * T.
Proof. intros HJK. field. exact HJK. Qed.

Lemma interpolation_on_ramp (y : list xreal) (hw : Z) (t : nat) (j k : Z)
    (c0 c1 : Qc) :
  (forall s : nat, (s < length y)%nat ->
     y !! s = Some (Real (c0 + c1 * Z2Qc (Z.of_nat s)))) ->
  interior (Z.of_nat (length y)) hw (Z.of_nat t) ->
  (1 <= j <= hw)%Z -> (1 <= k <= hw)%Z ->
  interpolation y (Z.of_nat t) j k = Real (c0 + c1 * Z2Qc (Z.of_nat t)).
Proof.
  intros Hramp Ht Hj Hk. unfold interior in Ht. unfold interpolation.
  assert (Hr : (Z.to_nat (Z.of_nat t + k) < length y)%nat) by lia.
  assert (Hl : (Z.to_nat (Z.of_nat t - j) < length y)%nat) by lia.
  rewrite (list_lookup_total_correct y _ _ (Hramp _ Hr)).
  rewrite (list_lookup_total_correct y _ _ (Hramp _ Hl)).
  rewrite !Z2Nat.id by lia. simpl. unfold xsub, xdiv. simpl.
  rewrite Qc_is_zero_false by (apply Z2Qc_nonzero; lia).
  simpl. f_equal.
  rewrite !Z2Qc_add, Z2Qc_sub.
  apply ramp_interpolation.
  rewrite <- Z2Qc_add. apply Z2Qc_nonzero. lia.
Qed.

Lemma xlt_real_inf (q : Qc) : xlt (Real q) PosInf = true.
Proof. reflexivity. Qed.

Lemma running_min_constant (ts : list xreal) (q : Qc) :
  ts <> [] -> (forall t, t ∈ ts -> t = Real q) -> running_min ts = Real q.
Proof.
  induction ts as [|t ts IH] using rev_ind; intros Hne Hall;
    [contradiction |].
  rewrite running_min_snoc.
  rewrite (Hall t) by (apply elem_of_app; right;
                       now apply list_elem_of_singleton).
  destruct ts as [|t' ts'].
  - reflexivity.
  - rewrite IH.
    + unfold keep_lower. now destruct (flt _ _).
    + discriminate.
    + intros t0 Ht0. apply Hall, elem_of_app. now left.
Qed.

Lemma xsub_diag (q : Qc) : xsub (Real q) (Real q) = Real 0.
Proof. unfold xsub. simpl. f_equal. ring. Qed.

(** C6. In exact arithmetic, for intensities [c0 + c1 * t] at every index
    [t], on an unsmoothed call with an even window of at least 2: at every
    index of the outer loop each candidate is the ramp's own value there, so
    the background is the intensity and the returned intensity is exactly
    zero. *)
Theorem linear_ramp_subtracts_to_zero
    (a : ndarray xreal) (w : Z) (N : nat) (c0 c1 : Qc) :
  shape a = [N; 2%nat] -> well_formed a -> (2 <= w)%Z -> (w mod 2 = 0)%Z ->
  (forall t : nat, (t < N)%nat ->
     column1 (data a) !! t = Some (Real (c0 + c1 * Z2Qc (Z.of_nat t)))) ->
  exists out bg,
    remove_fluo_spectra_lowest_point savgol_filter a w false = inr out
    /\ background (column1 (data a)) (w / 2) = inr bg
    /\ forall t : nat,
         interior (Z.of_nat N) (w / 2) (Z.of_nat t) ->
         (forall j k, (1 <= j <= w / 2)%Z -> (1 <= k <= w / 2)%Z ->
            candidate (column1 (data a)) (Z.of_nat t) j k
            = inr (Real (c0 + c1 * Z2Qc (Z.of_nat t))))
         /\ bg !! t = column1 (data a) !! t
         /\ column1 (data out) !! t = Some (Real 0).
Proof.
  intros Hshape Hwf Hw Heven Hramp.
  assert (Hy : length (column1 (data a)) = N).
  { apply column1_length. unfold well_formed in Hwf.
    rewrite Hshape in Hwf. simpl in Hwf. lia. }
  destruct (routine_rows savgol_filter a w false N _ Hshape Hwf Hw Heven
              eq_refl Hy)
    as (out & bg & Hout & Hbg & _ & _ & _ & Hc1 & _ & Hin & _).
  simpl in Hbg, Hc1, Hin.
  exists out, bg. split; [exact Hout |]. split; [exact Hbg |].
  intros t Ht.
  assert (Hhw : (1 <= w / 2)%Z) by (apply Z.div_le_lower_bound; lia).
  assert (HtN : (t < N)%nat) by (unfold interior in Ht; lia).
  rewrite <- Hy in Hramp, Ht.
  assert (Hbgt : bg !! t = Some (Real (c0 + c1 * Z2Qc (Z.of_nat t)))).
  { rewrite Hy in Ht. rewrite (Hin t Ht). f_equal.
    apply running_min_constant.
    - now apply candidates_nonempty.
    - intros c Hc. apply elem_of_candidates in Hc as (j & k & Hj & Hk & ->).
      rewrite <- Hy in Ht. now apply (interpolation_on_ramp _ (w / 2)). }
  split; [| split].
  - intros j k Hj Hk.
    rewrite (candidate_interior _ (w / 2)) by assumption.
    f_equal. now apply (interpolation_on_ramp _ (w / 2)).
  - rewrite Hbgt. symmetry. apply Hramp. lia.
  - assert (Hyt := Hramp t ltac:(lia)).
    rewrite Hc1, <- (xsub_diag (c0 + c1 * Z2Qc (Z.of_nat t))).
    exact (subtract_lookup _ _ _ _ _ Hyt Hbgt).
Qed.

End ExactClaims.

Section ExactExamples.
Import Exact.
Local Open Scope Qc_scope.

Lemma linear_ramp_subtracts_to_zero_at_ramp :
  exists out bg,
    remove_fluo_spectra_lowest_point no_smoothing ramp 4 false = inr out
    /\ background (column1 (data ramp)) (4 / 2) = inr bg
    /\ forall t : nat,
         interior (Z.of_nat 7) (4 / 2) (Z.of_nat t) ->
         (forall j k, (1 <= j <= 4 / 2)%Z -> (1 <= k <= 4 / 2)%Z ->
            candidate (column1 (data ramp)) (Z.of_nat t) j k
            = inr (Real (0 + 1 * Z2Qc (Z.of_nat t))))
         /\ bg !! t = column1 (data ramp) !! t
         /\ column1 (data out) !! t = Some (Real 0).
Proof.
  apply (linear_ramp_subtracts_to_zero no_smoothing ramp 4 7 0 1).
  - reflexivity.
  - reflexivity.
  - lia.
  - reflexivity.
  - intros t Ht.
    do 7 (destruct t as [|t];
          [simpl; do 2 f_equal; apply Qc_is_canon; reflexivity |]).
    lia.
Defined.

End ExactExamples.

(** * The routine over the store *)

Section StoreFacts.
Import Store.
Context {F : Type} `{Arith F}.
Implicit Types (s : gmap positive (list F)) (l : positive) (xs : list F).

(** *** Reading arrays *)

Lemma omap_same {A B : Type} (f g : A -> option B) (ts : list A) :
  (forall t, f t = g t) -> omap f ts = omap g ts.
Proof.
  intros Hfg. induction ts as [|t ts IH]; [reflexivity |].
  cbn. now rewrite Hfg, IH.
Qed.

Lemma omap_lookup_seq (pre xs : list F) :
  omap (fun t : nat => (pre ++ xs) !! t) (seq (length pre) (length xs)) = xs.
Proof.
  revert pre. induction xs as [|x xs IH]; intros pre; [reflexivity |].
  cbn. rewrite list_lookup_middle by reflexivity. f_equal.
  specialize (IH (pre ++ [x])).
  rewrite <- app_assoc, length_app, Nat.add_1_r in IH. exact IH.
Qed.

Lemma omap_lookup_all xs :
  omap (fun t : nat => xs !! t) (seq 0 (length xs)) = xs.
Proof. exact (omap_lookup_seq [] xs). Qed.

(** An array that is the whole of its buffer. *)
Lemma elements_whole s l xs :
  s !! l = Some xs -> elements s (mk_array l 0 1 (length xs)) = xs.
Proof.
  intros Hl. unfold elements. simpl.
  rewrite (lookup_total_correct s l xs Hl).
  rewrite <- (omap_lookup_all xs) at 2.
  apply omap_same. intros t. f_equal. lia.
Qed.

(** The two column views of an (N,2) array. *)
Lemma elements_column0 s l (d : list F) (N : nat) :
  s !! l = Some d -> length d = (N * 2)%nat ->
  elements s (mk_array l 0 2 N) = column0 d.
Proof.
  intros Hl Hd. unfold elements. simpl.
  rewrite (lookup_total_correct s l d Hl).
  rewrite <- (omap_lookup_all (column0 d)), (column0_length d N Hd).
  apply omap_same. intros t. now rewrite (column0_lookup d N t Hd).
Qed.

Lemma elements_column1 s l (d : list F) (N : nat) :
  s !! l = Some d -> length d = (N * 2)%nat ->
  elements s (mk_array l 1 2 N) = column1 d.
Proof.
  intros Hl Hd. unfold elements. simpl.
  rewrite (lookup_total_correct s l d Hl).
  rewrite <- (omap_lookup_all (column1 d)), (column1_length d N Hd).
  apply omap_same. intros t. rewrite (column1_lookup d N t Hd).
  f_equal. lia.
Qed.

(** *** Allocation *)

Lemma new_array_spec xs s :
  exists l,
    s !! l = None
    /\ new_array xs s = (inr (mk_array l 0 1 (length xs)), <[l := xs]> s).
Proof.
  exists (fresh (dom s)). split; [| reflexivity].
  apply not_elem_of_dom, is_fresh.
Qed.

(** *** The outer loop, in place *)

Lemma overwrite_lowest_length (pv b : list F) (hw : Z) (idxs : list Z) :
  length (foldl (overwrite_lowest pv hw) b idxs) = length b.
Proof.
  revert b. induction idxs as [|i idxs IH]; intros b; simpl; [reflexivity |].
  rewrite IH. unfold overwrite_lowest. apply length_insert.
Qed.

Lemma loop_in_place (pv : list F) (hw : Z) (lp lbg : positive)
    (idxs : list Z) s (b : list F) :
  lp <> lbg ->
  s !! lp = Some pv -> s !! lbg = Some b -> length b = length pv ->
  (0 <= hw)%Z ->
  (forall i, i ∈ idxs -> interior (Z.of_nat (length pv)) hw i) ->
  for_each_in_place idxs
    (fun i =>
       mbind (read (mk_array lp 0 1 (length pv)))
         (fun ps =>
            mbind (lift (lowest_intensity ps hw i))
              (fun low =>
                 store_item (mk_array lbg 0 1 (length pv)) i low)))
    s
  = (inr tt, <[lbg := foldl (overwrite_lowest pv hw) b idxs]> s).
Proof.
  intros Hne Hp Hb Hlen Hhw. revert s b Hp Hb Hlen.
  induction idxs as [|i idxs IH]; intros s b Hp Hb Hlen Hint; simpl.
  - unfold mret. now rewrite insert_id.
  - assert (Hi : interior (Z.of_nat (length pv)) hw i)
      by (apply Hint, elem_of_cons; now left).
    unfold mbind at 1. unfold mbind at 1. unfold read at 1.
    rewrite (elements_whole s lp pv Hp).
    unfold mbind at 1. unfold lift at 1.
    rewrite (lowest_intensity_interior pv hw i Hi).
    unfold store_item at 1. simpl size.
    rewrite normalize_index_in_bounds by (unfold interior in Hi; lia).
    simpl buffer. simpl offset. simpl stride.
    rewrite (lookup_total_correct s lbg b Hb).
    replace (0 + 1 * Z.to_nat i)%nat with (Z.to_nat i) by lia.
    fold (overwrite_lowest pv hw b i).
    rewrite (IH _ (overwrite_lowest pv hw b i)).
    + now rewrite insert_insert_eq.
    + now rewrite lookup_insert_ne by congruence.
    + apply lookup_insert_eq.
    + unfold overwrite_lowest. now rewrite length_insert.
    + intros i' Hi'. apply Hint, elem_of_cons. now right.
Qed.

Lemma read_whole s l xs :
  s !! l = Some xs -> read (mk_array l 0 1 (length xs)) s = (inr xs, s).
Proof. intros Hl. unfold read. now rewrite (elements_whole s l xs Hl). Qed.

(** *** Sequencing *)

Lemma mbind_returns {A B : Type} (m : M A) (k : A -> M B) s (a : A) s' :
  m s = (inr a, s') -> mbind m k s = k a s'.
Proof. intros Hm. unfold mbind. now rewrite Hm. Qed.

Lemma copy_spec (v : array) s :
  exists l,
    s !! l = None
    /\ copy v s
       = (inr (mk_array l 0 1 (length (elements s v))),
          <[l := elements s v]> s).
Proof.
  unfold copy, mbind, read.
  destruct (new_array_spec (elements s v) s) as (l & Hl & Hnew).
  exists l. split; [exact Hl | exact Hnew].
Qed.

(** From [<[l1:=_]> (... s) !! l = None]: [l] differs from every inserted
    name and is not in [s]. *)
Ltac fresh_facts :=
  repeat match goal with
  | H : <[_ := _]> _ !! _ = None |- _ =>
      apply lookup_insert_None in H; destruct H
  end.

Ltac lookup_store :=
  repeat first
    [ rewrite lookup_insert_eq
    | rewrite lookup_insert_ne by congruence ];
  try (reflexivity || assumption).

Section Refinement.
Variable savgol_filter : list F -> Z -> Z -> result (list F).

(** A call that fails validation raises with the store as it found it:
    nothing was allocated, nothing was written. *)
Lemma in_place_invalid (input : array2) (w : Z) (smooth : bool) s (e : exn) :
  validate (shape2 input) w = inl e ->
  remove_fluo_spectra_lowest_point_in_place savgol_filter input w smooth s
  = (inl e, s).
Proof.
  intros Hv. unfold remove_fluo_spectra_lowest_point_in_place, mbind, lift.
  now rewrite Hv.
Qed.

(** On a valid call, the routine over the store computes what the routine
    on values computes, in a new buffer, and leaves every buffer that was
    there as it was. *)
Lemma in_place_refines (l : positive) (N : nat) (d : list F) (w : Z)
    (smooth : bool) s :
  s !! l = Some d -> length d = (N * 2)%nat ->
  (2 <= w)%Z -> (w mod 2 = 0)%Z ->
  exists s',
    s ⊆ s'
    /\ match remove_fluo_spectra_lowest_point savgol_filter
               (mk_ndarray [N; 2%nat] d) w smooth with
       | inl e =>
           remove_fluo_spectra_lowest_point_in_place savgol_filter
             (mk_array2 l [N; 2%nat]) w smooth s
           = (inl e, s')
       | inr out =>
           exists lout,
             remove_fluo_spectra_lowest_point_in_place savgol_filter
               (mk_array2 l [N; 2%nat]) w smooth s
             = (inr (mk_array2 lout (shape out)), s')
             /\ s' !! lout = Some (data out)
       end.
Proof.
  intros Hl Hd Hw Heven.
  assert (Hhw : (0 <= w / 2)%Z) by (apply Z.div_pos; lia).
  set (ys := column1 d).
  (* the routine on values, up to the preprocessing *)
  unfold remove_fluo_spectra_lowest_point. simpl shape. simpl data.
  rewrite validate_accepts by assumption. simpl bind.
  fold ys.
  (* the routine over the store, statement by statement *)
  unfold remove_fluo_spectra_lowest_point_in_place. simpl shape2.
  rewrite (mbind_returns _ _ s tt s)
    by (unfold lift; now rewrite validate_accepts).
  unfold column_view. simpl buffer2. simpl shape2. simpl nth.
  destruct (copy_spec (mk_array l 1 2 N) s) as (ly & Hly & Hy).
  rewrite (elements_column1 s l d N Hl Hd) in Hy. fold ys in Hy.
  rewrite (mbind_returns _ _ _ _ _ Hy). clear Hy.
  set (s1 := <[ly := ys]> s).
  destruct (copy_spec (mk_array ly 0 1 (length ys)) s1) as (lp0 & Hlp0 & Hp0).
  rewrite (elements_whole s1 ly ys) in Hp0 by apply lookup_insert_eq.
  rewrite (mbind_returns _ _ _ _ _ Hp0). clear Hp0.
  set (s2 := <[lp0 := ys]> s1).
  destruct (preprocess savgol_filter ys smooth) as [e | pv] eqn:Hpv.
  { (* the smoother raises: the two copies are all that was allocated *)
    simpl bind. exists s2. split.
    - unfold s2, s1 in *. fresh_facts.
      apply map_subseteq_spec. intros i x Hi. lookup_store.
    - destruct smooth; [| discriminate Hpv]. simpl in Hpv.
      unfold mbind at 1. unfold apply_filter.
      rewrite (mbind_returns _ _ s2 ys s2).
      2:{ apply read_whole.
          unfold s2, s1 in *. fresh_facts. lookup_store. }
      unfold mbind, lift. now rewrite Hpv. }
  simpl bind.
  set (bgv := foldl (overwrite_lowest pv (w / 2)) pv
                (py_range (w / 2) (Z.of_nat (length pv) - w / 2))).
  rewrite (background_foldl pv (w / 2) Hhw). fold bgv. simpl bind.
  assert (Hpre : exists lp s3,
    (if smooth
     then apply_filter savgol_filter (mk_array ly 0 1 (length ys)) 5 1
     else mret (mk_array lp0 0 1 (length ys))) s2
    = (inr (mk_array lp 0 1 (length pv)), s3)
    /\ s3 !! lp = Some pv /\ s ⊆ s3 /\ s3 !! l = Some d).
  { unfold preprocess in Hpv. destruct smooth.
    - unfold apply_filter.
      rewrite (mbind_returns _ _ s2 ys s2).
      2:{ apply read_whole.
          unfold s2, s1 in *. fresh_facts. lookup_store. }
      rewrite (mbind_returns _ _ s2 pv s2)
        by (unfold lift; now rewrite Hpv).
      destruct (new_array_spec pv s2) as (lp & Hlp & Hnew).
      exists lp, (<[lp := pv]> s2).
      split; [exact Hnew |].
      unfold s2, s1 in *. fresh_facts.
      split; [apply lookup_insert_eq |]. split.
      + apply map_subseteq_spec. intros i x Hi. lookup_store.
      + lookup_store.
    - injection Hpv as <-.
      exists lp0, s2. split; [reflexivity |].
      unfold s2, s1 in *. fresh_facts.
      split; [apply lookup_insert_eq |]. split.
      + apply map_subseteq_spec. intros i x Hi. lookup_store.
      + lookup_store. }
  destruct Hpre as (lp & s3 & Hpre & Hp & Hsub3 & Hl3).
  rewrite (mbind_returns _ _ _ _ _ Hpre). clear Hpre.
  simpl size.
  destruct (copy_spec (mk_array lp 0 1 (length pv)) s3) as (lbg & Hlbg & Hbg).
  rewrite (elements_whole s3 lp pv Hp) in Hbg.
  rewrite (mbind_returns _ _ _ _ _ Hbg). clear Hbg.
  set (s4 := <[lbg := pv]> s3).
  assert (Hne : lp <> lbg) by congruence.
  rewrite (mbind_returns _ _ _ tt (<[lbg := bgv]> s4)).
  2:{ apply loop_in_place; try assumption.
      - unfold s4. now rewrite lookup_insert_ne by congruence.
      - apply lookup_insert_eq.
      - reflexivity.
      - intros i Hi. now apply elem_of_py_range in Hi. }
  unfold s4. rewrite insert_insert_eq.
  set (s5 := <[lbg := bgv]> s3).
  assert (Hbglen : length bgv = length pv).
  { unfold bgv. apply overwrite_lowest_length. }
  destruct (new_array_spec (subtract pv bgv) s5) as (lc & Hlc & Hclean).
  set (s6 := <[lc := subtract pv bgv]> s5).
  rewrite (mbind_returns _ _ s5
             (mk_array lc 0 1 (length (subtract pv bgv))) s6).
  2:{ unfold subtract_arrays.
      rewrite (mbind_returns _ _ s5 pv s5).
      2:{ apply read_whole.
          unfold s5. now rewrite lookup_insert_ne by congruence. }
      rewrite (mbind_returns _ _ s5 bgv s5).
      2:{ rewrite <- Hbglen. apply read_whole. apply lookup_insert_eq. }
      exact Hclean. }
  clear Hclean.
  unfold stack_columns.
  assert (Hsub6 : s ⊆ s6).
  { unfold s6, s5 in *. fresh_facts.
    apply map_subseteq_spec. intros i x Hi.
    assert (s3 !! i = Some x) by (eapply lookup_weaken; eassumption).
    lookup_store. }
  rewrite (mbind_returns _ _ s6 (column0 d) s6).
  2:{ unfold read.
      now rewrite (elements_column0 s6 l d N
                     (lookup_weaken s s6 l d Hl Hsub6) Hd). }
  rewrite (mbind_returns _ _ s6 (subtract pv bgv) s6).
  2:{ apply read_whole. apply lookup_insert_eq. }
  destruct (column_stack (column0 d) (subtract pv bgv)) as [e | out].
  - exists s6. split; [exact Hsub6 | reflexivity].
  - assert (Hfresh : s6 !! fresh (dom s6) = None)
      by apply not_elem_of_dom, is_fresh.
    exists (<[fresh (dom s6) := data out]> s6). split.
    + etransitivity; [exact Hsub6 |]. now apply insert_subseteq.
    + exists (fresh (dom s6)). split; [reflexivity |].
      apply lookup_insert_eq.
Qed.

(** C5. An input whose shape is not (N,2), a one-dimensional one or an
    (N,3) one for instance, fails with InvalidShape whatever the window
    width is; and every failure of validation is raised with the store as
    the call found it: no array was allocated, nothing was smoothed or
    computed, and no buffer, the caller's included, was written. *)
Theorem validation_fails_first (sh : list nat) (d : list F) (l : positive)
    (w : Z) (smooth : bool) s :
  (length sh <> 2%nat \/ nth 1 sh 0%nat <> 2%nat ->
   remove_fluo_spectra_lowest_point savgol_filter (mk_ndarray sh d) w smooth
   = inl InvalidShape
   /\ remove_fluo_spectra_lowest_point_in_place savgol_filter
        (mk_array2 l sh) w smooth s
      = (inl InvalidShape, s))
  /\ (forall e : exn,
        validate sh w = inl e ->
        remove_fluo_spectra_lowest_point savgol_filter (mk_ndarray sh d) w
          smooth
        = inl e
        /\ remove_fluo_spectra_lowest_point_in_place savgol_filter
             (mk_array2 l sh) w smooth s
           = (inl e, s)).
Proof.
  assert (Hfail : forall e : exn,
    validate sh w = inl e ->
    remove_fluo_spectra_lowest_point savgol_filter (mk_ndarray sh d) w smooth
    = inl e
    /\ remove_fluo_spectra_lowest_point_in_place savgol_filter
         (mk_array2 l sh) w smooth s
       = (inl e, s)).
  { intros e He. split.
    - unfold remove_fluo_spectra_lowest_point. simpl shape. now rewrite He.
    - now apply in_place_invalid. }
  split; [| exact Hfail].
  intros Hbad. apply Hfail. now apply validate_bad_shape.
Qed.

(** A shape that passes validation is (N,2). *)
Lemma validate_inr_shape (sh : list nat) (w : Z) :
  validate sh w = inr tt ->
  (exists N : nat, sh = [N; 2%nat]) /\ (2 <= w)%Z /\ (w mod 2 = 0)%Z.
Proof.
  unfold validate.
  destruct (length sh =? 2)%nat eqn:E1; [| discriminate].
  destruct (nth 1 sh 0%nat =? 2)%nat eqn:E2; [| discriminate].
  destruct (w <? 2)%Z eqn:E3; [discriminate |].
  destruct (w mod 2 =? 0)%Z eqn:E4; [| discriminate].
  intros _. apply Nat.eqb_eq in E1, E2.
  split; [| lia].
  destruct sh as [|N [|c [|? ?]]]; simpl in *; try discriminate.
  exists N. now subst c.
Qed.

(** C9. The routine is a function of what its input holds, and it leaves
    its input alone: two calls on arrays of one shape with the same
    elements, with one window width and one smoothing setting, from any two
    stores, have the same outcome (the same exception, or arrays of one
    shape with the same elements), and every buffer that was in the store
    before a call, the input's included, holds afterwards what it held. *)
Theorem deterministic_and_input_preserving
    (l1 l2 : positive) (sh : list nat) (d : list F) (w : Z) (smooth : bool)
    (s1 s2 : gmap positive (list F)) :
  s1 !! l1 = Some d -> s2 !! l2 = Some d ->
  well_formed (mk_ndarray sh d) ->
  same_outcome
    (remove_fluo_spectra_lowest_point_in_place savgol_filter
       (mk_array2 l1 sh) w smooth s1)
    (remove_fluo_spectra_lowest_point_in_place savgol_filter
       (mk_array2 l2 sh) w smooth s2)
  /\ s1 ⊆ snd (remove_fluo_spectra_lowest_point_in_place savgol_filter
                 (mk_array2 l1 sh) w smooth s1)
  /\ s2 ⊆ snd (remove_fluo_spectra_lowest_point_in_place savgol_filter
                 (mk_array2 l2 sh) w smooth s2).
Proof.
  intros Hl1 Hl2 Hwf.
  destruct (validate sh w) as [e | []] eqn:Hv.
  - rewrite !(in_place_invalid _ _ _ _ e) by exact Hv. simpl.
    repeat split; reflexivity.
  - apply validate_inr_shape in Hv as ([N ->] & Hw & Heven).
    assert (Hd : length d = (N * 2)%nat)
      by (unfold well_formed in Hwf; simpl in Hwf; lia).
    destruct (in_place_refines l1 N d w smooth s1 Hl1 Hd Hw Heven)
      as (s1' & Hsub1 & Hrun1).
    destruct (in_place_refines l2 N d w smooth s2 Hl2 Hd Hw Heven)
      as (s2' & Hsub2 & Hrun2).
    destruct (remove_fluo_spectra_lowest_point savgol_filter
                (mk_ndarray [N; 2%nat] d) w smooth) as [e | out].
    + rewrite Hrun1, Hrun2. simpl. repeat split; assumption.
    + destruct Hrun1 as (lo1 & -> & Ho1), Hrun2 as (lo2 & -> & Ho2).
      simpl. rewrite Ho1, Ho2. repeat split; eauto.
Qed.

End Refinement.

End StoreFacts.

(** * Shape and validation, for every arithmetic *)

Section GenericClaims.
Context {F : Type} `{Arith F}.
Variable savgol_filter : list F -> Z -> Z -> result (list F).
Lemma valid_call_returns
    (a : ndarray F) (w : Z) (smooth : bool) (N : nat) (p : list F) :
  shape a = [N; 2%nat] -> well_formed a -> 2 <= w -> w mod 2 = 0 ->
  preprocess savgol_filter (column1 (data a)) smooth = inr p ->
  length p = N ->
  exists out,
    remove_fluo_spectra_lowest_point savgol_filter a w smooth = inr out.
Proof.
  intros Hshape Hwf Hw Heven Hpre Hp.
  destruct (routine_rows savgol_filter a w smooth N p Hshape Hwf Hw Heven
              Hpre Hp)
    as (out & _ & Hout & _).
  now exists out.
Qed.

(** C3. For every (N,2) input and every even window of at least 2, where
    the preprocessing returns as many samples [p] as the input has rows
    (the intensities themselves, or what the smoother returns for them), the
    routine returns an (N,2) array whose row [t] holds the wavenumber of row
    [t] of the input, unchanged, and the preprocessed intensity of row [t]
    minus the background of row [t]: no row is dropped or reordered. *)
Theorem shape_and_wavenumbers_preserved
    (a : ndarray F) (w : Z) (smooth : bool) (N : nat) (p : list F) :
  shape a = [N; 2%nat] -> well_formed a -> 2 <= w -> w mod 2 = 0 ->
  preprocess savgol_filter (column1 (data a)) smooth = inr p ->
  length p = N ->
  exists out bg,
    remove_fluo_spectra_lowest_point savgol_filter a w smooth = inr out
    /\ background p (w / 2) = inr bg
    /\ shape out = [N; 2%nat]
    /\ length (data out) = (N * 2)%nat
    /\ column0 (data out) = column0 (data a)
    /\ forall t : nat, (t < N)%nat ->
         data out !! (2 * t)%nat = data a !! (2 * t)%nat
         /\ is_Some (data a !! (2 * t)%nat)
         /\ exists pt bt,
              p !! t = Some pt
              /\ bg !! t = Some bt
              /\ data out !! (2 * t + 1)%nat = Some (fsub pt bt).
Proof.
  intros Hshape Hwf Hw Heven Hpre Hp.
  assert (Hd : length (data a) = (N * 2)%nat)
    by (unfold well_formed in Hwf; rewrite Hshape in Hwf; simpl in Hwf; lia).
  destruct (routine_rows savgol_filter a w smooth N p Hshape Hwf Hw Heven
              Hpre Hp)
    as (out & bg & Hout & Hbg & Hsh & Hwfo & Hc0 & Hc1 & Hlen & _).
  assert (Hdo : length (data out) = (N * 2)%nat)
    by (unfold well_formed in Hwfo; rewrite Hsh in Hwfo; simpl in Hwfo; lia).
  exists out, bg. repeat (split; [assumption |]).
  intros t Ht.
  split; [| split].
  - now rewrite <- (column0_lookup _ N t Hdo), <- (column0_lookup _ N t Hd),
      Hc0.
  - apply lookup_lt_is_Some_2. lia.
  - destruct (lookup_lt_is_Some_2 p t) as [pt Hpt]; [lia |].
    destruct (lookup_lt_is_Some_2 bg t) as [bt Hbt]; [lia |].
    exists pt, bt. split; [exact Hpt |]. split; [exact Hbt |].
    rewrite <- (column1_lookup _ N t Hdo), Hc1.
    now apply subtract_lookup.
Qed.

(** C4. On every (N,2) input: window width 1 fails with InvalidParameter,
    too small; 3 fails with InvalidParameter, odd; 4 is accepted and the
    call returns, where the preprocessing does; and in general the call
    raises InvalidParameter exactly when the width is below 2 or odd, the
    exceptions of the smoother being none of the routine's two. *)
Theorem window_width_validation (a : ndarray F) (smooth : bool) (N : nat) :
  shape a = [N; 2%nat] -> well_formed a ->
  (forall e, preprocess savgol_filter (column1 (data a)) smooth = inl e ->
     ~ is_InvalidParameter e) ->
  (forall p, preprocess savgol_filter (column1 (data a)) smooth = inr p ->
     length p = N) ->
  remove_fluo_spectra_lowest_point savgol_filter a 1 smooth
  = inl InvalidParameter_too_small
  /\ remove_fluo_spectra_lowest_point savgol_filter a 3 smooth
     = inl InvalidParameter_odd
  /\ ((exists p,
         preprocess savgol_filter (column1 (data a)) smooth = inr p) ->
      exists out,
        remove_fluo_spectra_lowest_point savgol_filter a 4 smooth = inr out)
  /\ forall w : Z,
       (exists e, is_InvalidParameter e
                  /\ remove_fluo_spectra_lowest_point savgol_filter a w smooth
                     = inl e)
       <-> (w < 2 \/ Z.odd w = true).
Proof.
  intros Hshape Hwf Hexn Hlen.
  assert (Hsmall : forall w, w < 2 ->
    remove_fluo_spectra_lowest_point savgol_filter a w smooth
    = inl InvalidParameter_too_small).
  { intros w Hw. unfold remove_fluo_spectra_lowest_point.
    now rewrite Hshape, validate_too_small. }
  assert (Hodd : forall w, 2 <= w -> Z.odd w = true ->
    remove_fluo_spectra_lowest_point savgol_filter a w smooth
    = inl InvalidParameter_odd).
  { intros w Hw Ho. unfold remove_fluo_spectra_lowest_point.
    rewrite Hshape, validate_odd; [reflexivity | assumption |].
    rewrite Zmod_odd, Ho. discriminate. }
  assert (Hok : forall w p, 2 <= w -> Z.odd w = false ->
    preprocess savgol_filter (column1 (data a)) smooth = inr p ->
    exists out,
      remove_fluo_spectra_lowest_point savgol_filter a w smooth = inr out).
  { intros w p Hw Ho Hpre.
    assert (Heven : w mod 2 = 0) by now rewrite Zmod_odd, Ho.
    apply (valid_call_returns a w smooth N p); auto. }
  split; [now apply Hsmall |]. split; [now apply Hodd |].
  split; [intros [p Hpre]; now apply (Hok 4 p) |].
  intros w. split.
  - intros (e & He & Hrun).
    destruct (Z.ltb_spec w 2) as [Hlt | Hge]; [now left |].
    destruct (Z.odd w) eqn:Ho; [now right |].
    exfalso.
    destruct (preprocess savgol_filter (column1 (data a)) smooth)
      as [e' | p] eqn:Hpre.
    + assert (Heven : w mod 2 = 0) by now rewrite Zmod_odd, Ho.
      rewrite (smoother_error_leaves_routine savgol_filter a w smooth N e'
                 Hshape Hge Heven Hpre) in Hrun.
      injection Hrun as <-. exact (Hexn e' eq_refl He).
    + destruct (Hok w p Hge Ho eq_refl) as (out & Hout). congruence.
  - intros [Hlt | Ho].
    + exists InvalidParameter_too_small. split; [now left | now apply Hsmall].
    + destruct (Z.ltb_spec w 2) as [Hlt | Hge].
      * exists InvalidParameter_too_small.
        split; [now left | now apply Hsmall].
      * exists InvalidParameter_odd. split; [now right | now apply Hodd].
Qed.

End GenericClaims.

(** ** The theorems on shape, validation and the store at concrete inputs *)

Section Examples.
Import Float64 Store.
Local Open Scope float_scope.

Lemma shape_and_wavenumbers_preserved_at_spike :
  exists out,
    remove_fluo_spectra_lowest_point edge_checked_smoother spike 4 true
    = inr out
    /\ shape out = [11%nat; 2%nat]
    /\ length (data out) = 22%nat
    /\ column0 (data out) = [0; 1; 2; 3; 4; 5; 6; 7; 8; 9; 10].
Proof.
  destruct (shape_and_wavenumbers_preserved edge_checked_smoother
              spike 4 true 11 (column1 (data spike)))
    as (out & bg & Hout & _ & Hsh & Hlen & Hc0 & _).
  - reflexivity.
  - reflexivity.
  - lia.
  - reflexivity.
  - reflexivity.
  - reflexivity.
  - exists out. repeat split; assumption.
Defined.

Lemma window_width_validation_at_spike :
  remove_fluo_spectra_lowest_point edge_checked_smoother spike 1 true
  = inl InvalidParameter_too_small
  /\ remove_fluo_spectra_lowest_point edge_checked_smoother spike 3 true
     = inl InvalidParameter_odd
  /\ (exists out,
        remove_fluo_spectra_lowest_point edge_checked_smoother spike 4 true
        = inr out)
  /\ (forall w : Z,
       (exists e, is_InvalidParameter e
                  /\ remove_fluo_spectra_lowest_point edge_checked_smoother
                       spike w true
                     = inl e)
       <-> (w < 2 \/ Z.odd w = true)%Z)
  /\ (forall w : Z,
       (exists e, is_InvalidParameter e
                  /\ remove_fluo_spectra_lowest_point edge_checked_smoother
                       nan_edge w true
                     = inl e)
       <-> (w < 2 \/ Z.odd w = true)%Z).
Proof.
  destruct (window_width_validation edge_checked_smoother spike true 11)
    as (H1 & H3 & H4 & Hiff).
  - reflexivity.
  - reflexivity.
  - intros e He. discriminate He.
  - intros p Hp. injection Hp as <-. reflexivity.
  - destruct (window_width_validation edge_checked_smoother nan_edge true 11)
      as (_ & _ & _ & Hiff').
    + reflexivity.
    + reflexivity.
    + intros e He. injection He as <-. intros [He | He]; discriminate He.
    + intros p Hp. discriminate Hp.
    + split; [exact H1 |]. split; [exact H3 |]. split; [| split].
      * apply H4. now exists (column1 (data spike)).
      * exact Hiff.
      * exact Hiff'.
Defined.

(** A one-dimensional input and an (N,3) input, with a valid and with an
    invalid window width. *)
Example one_dimensional_input_is_rejected :
  remove_fluo_spectra_lowest_point no_smoothing
    (mk_ndarray [3%nat] [1; 2; 3]) 4 true
  = inl InvalidShape
  /\ remove_fluo_spectra_lowest_point no_smoothing
       (mk_ndarray [2%nat; 3%nat] [1; 2; 3; 4; 5; 6]) 3 true
     = inl InvalidShape.
Proof. split; reflexivity. Qed.

Lemma deterministic_and_input_preserving_at_spike :
  same_outcome
    (remove_fluo_spectra_lowest_point_in_place no_smoothing
       (mk_array2 5 [11%nat; 2%nat]) 4 false spike_store)
    (remove_fluo_spectra_lowest_point_in_place no_smoothing
       (mk_array2 9 [11%nat; 2%nat]) 4 false crowded_store)
  /\ spike_store
     ⊆ snd (remove_fluo_spectra_lowest_point_in_place no_smoothing
              (mk_array2 5 [11%nat; 2%nat]) 4 false spike_store)
  /\ crowded_store
     ⊆ snd (remove_fluo_spectra_lowest_point_in_place no_smoothing
              (mk_array2 9 [11%nat; 2%nat]) 4 false crowded_store).
Proof.
  apply (deterministic_and_input_preserving no_smoothing 5 9
           [11%nat; 2%nat] (data spike) 4 false spike_store crowded_store).
  - reflexivity.
  - reflexivity.
  - reflexivity.
Defined.

End Examples.

(** * Further properties of the estimator *)

Section Locality.
Context {F : Type} `{Arith F}.
Variable savgol_filter : list F -> Z -> Z -> result (list F).

Lemma bind_ext_in {A B : Type} (f g : A -> list B) (l : list A) :
  (forall x, x ∈ l -> f x = g x) -> l ≫= f = l ≫= g.
Proof.
  induction l as [|x l IH]; intros Hfg; [reflexivity |].
  change ((x :: l) ≫= f) with (f x ++ (l ≫= f)).
  change ((x :: l) ≫= g) with (g x ++ (l ≫= g)).
  rewrite Hfg by (apply elem_of_cons; now left).
  f_equal. apply IH. intros x' Hx'. apply Hfg, elem_of_cons. now right.
Qed.

Lemma candidates_ext (y y' : list F) (hw i : Z) :
  (forall j k, 1 <= j <= hw -> 1 <= k <= hw ->
     interpolation y' i j k = interpolation y i j k) ->
  candidates y' hw i = candidates y hw i.
Proof.
  intros Hsame. unfold candidates.
  apply bind_ext_in. intros j Hj. apply elem_of_py_range in Hj.
  apply bind_ext_in. intros k Hk. apply elem_of_py_range in Hk.
  rewrite Hsame by lia. reflexivity.
Qed.

(** The background at an index of the outer loop is read off the
    [half_width] samples on either side of it and nothing else: not the
    sample at the index itself, not the samples further away, not the
    backgrounds written earlier. Two spectra of one length that agree on
    those neighbours get the same background there, and the returned
    intensities there differ only through the two samples themselves. *)
Theorem background_is_local (a a' : ndarray F) (w : Z) (N t : nat) :
  shape a = [N; 2%nat] -> well_formed a ->
  shape a' = [N; 2%nat] -> well_formed a' ->
  2 <= w -> w mod 2 = 0 ->
  interior (Z.of_nat N) (w / 2) (Z.of_nat t) ->
  (forall s : nat,
     s <> t -> Z.of_nat t - w / 2 <= Z.of_nat s <= Z.of_nat t + w / 2 ->
     column1 (data a') !! s = column1 (data a) !! s) ->
  exists out out' bg bg' b yt yt',
    remove_fluo_spectra_lowest_point savgol_filter a w false = inr out
    /\ remove_fluo_spectra_lowest_point savgol_filter a' w false = inr out'
    /\ background (column1 (data a)) (w / 2) = inr bg
    /\ background (column1 (data a')) (w / 2) = inr bg'
    /\ bg !! t = Some b
    /\ bg' !! t = Some b
    /\ column1 (data a) !! t = Some yt
    /\ column1 (data a') !! t = Some yt'
    /\ column1 (data out) !! t = Some (fsub yt b)
    /\ column1 (data out') !! t = Some (fsub yt' b).
Proof.
  intros Hshape Hwf Hshape' Hwf' Hw Heven Ht Hsame.
  assert (Hy : length (column1 (data a)) = N).
  { apply column1_length. unfold well_formed in Hwf.
    rewrite Hshape in Hwf. simpl in Hwf. lia. }
  assert (Hy' : length (column1 (data a')) = N).
  { apply column1_length. unfold well_formed in Hwf'.
    rewrite Hshape' in Hwf'. simpl in Hwf'. lia. }
  destruct (routine_rows savgol_filter a w false N _ Hshape Hwf Hw Heven
              eq_refl Hy)
    as (out & bg & Hout & Hbg & _ & _ & _ & Hc1 & _ & Hin & _).
  destruct (routine_rows savgol_filter a' w false N _ Hshape' Hwf' Hw Heven
              eq_refl Hy')
    as (out' & bg' & Hout' & Hbg' & _ & _ & _ & Hc1' & _ & Hin' & _).
  assert (Hhw : 1 <= w / 2) by (apply Z.div_le_lower_bound; lia).
  assert (HtN : (t < N)%nat) by (unfold interior in Ht; lia).
  destruct (lookup_lt_is_Some_2 (column1 (data a)) t) as [yt Hyt];
    [rewrite Hy; lia |].
  destruct (lookup_lt_is_Some_2 (column1 (data a')) t) as [yt' Hyt'];
    [rewrite Hy'; lia |].
  assert (Hcands : candidates (column1 (data a')) (w / 2) (Z.of_nat t)
                   = candidates (column1 (data a)) (w / 2) (Z.of_nat t)).
  { apply candidates_ext. intros j k Hj Hk. unfold interpolation.
    unfold interior in Ht.
    assert (Hr : column1 (data a') !! Z.to_nat (Z.of_nat t + k)
                 = column1 (data a) !! Z.to_nat (Z.of_nat t + k))
      by (apply Hsame; lia).
    assert (Hl : column1 (data a') !! Z.to_nat (Z.of_nat t - j)
                 = column1 (data a) !! Z.to_nat (Z.of_nat t - j))
      by (apply Hsame; lia).
    rewrite !list_lookup_total_alt. now rewrite Hr, Hl. }
  assert (Hb' : bg' !! t
                = Some (running_min
                          (candidates (column1 (data a)) (w / 2)
                             (Z.of_nat t))))
    by (rewrite (Hin' t Ht); now rewrite Hcands).
  exists out, out', bg, bg',
    (running_min (candidates (column1 (data a)) (w / 2) (Z.of_nat t))),
    yt, yt'.
  split; [exact Hout |]. split; [exact Hout' |].
  split; [exact Hbg |]. split; [exact Hbg' |].
  split; [now apply Hin |]. split; [exact Hb' |].
  split; [exact Hyt |]. split; [exact Hyt' |]. split.
  - rewrite Hc1. apply subtract_lookup; [exact Hyt | now apply Hin].
  - rewrite Hc1'. now apply subtract_lookup.
Qed.

(** Smoothing is preprocessing and nothing more: where the smoother returns
    [p], a sample for every row, a call that smooths returns what a call
    that does not smooth returns on the same array with [p] for its
    intensity column. *)
Theorem smoothing_is_preprocessing
    (a : ndarray F) (w : Z) (N : nat) (p : list F) :
  shape a = [N; 2%nat] -> well_formed a ->
  savgol_filter (column1 (data a)) 5 1 = inr p -> length p = N ->
  remove_fluo_spectra_lowest_point savgol_filter a w true
  = remove_fluo_spectra_lowest_point savgol_filter
      (mk_ndarray [N; 2%nat] (interleave (column0 (data a)) p)) w false.
Proof.
  intros Hshape Hwf Hp Hlen.
  assert (Hd : length (data a) = (N * 2)%nat)
    by (unfold well_formed in Hwf; rewrite Hshape in Hwf; simpl in Hwf; lia).
  assert (Hx : length (column0 (data a)) = length p)
    by (rewrite Hlen; now apply column0_length).
  unfold remove_fluo_spectra_lowest_point. simpl shape. simpl data.
  rewrite Hshape, (column0_interleave _ _ Hx), (column1_interleave _ _ Hx).
  simpl preprocess. rewrite Hp. reflexivity.
Qed.

End Locality.

(** ** An exception of the smoother *)

Section SmootherFailure.
Import Store.
Context {F : Type} `{Arith F}.
Variable savgol_filter : list F -> Z -> Z -> result (list F).


End SmootherFailure.

Section WindowWidth.
Import Float64.
Local Open Scope float_scope.

(** A wider window never raises the background: at an index of the outer
    loop of both windows, where no candidate of the wider window is NaN, the
    background for the wider window is at or below the one for the narrower
    window, whose candidates are among those of the wider one. *)
Theorem wider_window_lower_background
    (y : list float) (hw hw' : Z) (t : nat) :
  (1 <= hw <= hw')%Z ->
  interior (Z.of_nat (length y)) hw' (Z.of_nat t) ->
  (forall j k c, (1 <= j <= hw')%Z -> (1 <= k <= hw')%Z ->
     candidate y (Z.of_nat t) j k = inr c -> is_nan c = false) ->
  exists bg bg' b b',
    background y hw = inr bg
    /\ background y hw' = inr bg'
    /\ bg !! t = Some b
    /\ bg' !! t = Some b'
    /\ (b' <=? b) = true.
Proof.
  intros Hhw Ht' Hnan.
  assert (Ht : interior (Z.of_nat (length y)) hw (Z.of_nat t))
    by (unfold interior in *; lia).
  destruct (background_spec y hw) as (bg & Hbg & _ & Hin & _); [lia |].
  destruct (background_spec y hw') as (bg' & Hbg' & _ & Hin' & _); [lia |].
  assert (Hcomparable : forall c, c ∈ candidates y hw' (Z.of_nat t) ->
                                  is_nan c = false).
  { intros c Hc. apply elem_of_candidates in Hc as (j & k & Hj & Hk & ->).
    apply (Hnan j k); try assumption.
    now apply (candidate_interior y hw'). }
  assert (Hsub : forall c, c ∈ candidates y hw (Z.of_nat t) ->
                           c ∈ candidates y hw' (Z.of_nat t)).
  { intros c Hc. apply elem_of_candidates in Hc as (j & k & Hj & Hk & ->).
    apply elem_of_candidates. exists j, k. repeat split; lia. }
  destruct (running_min_least (candidates y hw (Z.of_nat t))) as [Hmem _].
  { apply candidates_nonempty. lia. }
  { intros c Hc. now apply Hcomparable, Hsub. }
  destruct (running_min_least (candidates y hw' (Z.of_nat t))) as [_ Hle'].
  { apply candidates_nonempty. lia. }
  { exact Hcomparable. }
  exists bg, bg', (running_min (candidates y hw (Z.of_nat t))),
    (running_min (candidates y hw' (Z.of_nat t))).
  split; [exact Hbg |]. split; [exact Hbg' |].
  split; [now apply Hin |]. split; [now apply Hin' |].
  now apply Hle', Hsub.
Qed.

End WindowWidth.

(** ** Real-valued spectra in exact arithmetic *)

Section ExactEnvelope.
Import Exact.
Local Open Scope Qc_scope.
Variable savgol_filter : list xreal -> Z -> Z -> result (list xreal).

Lemma Qc_ltb_lt (p q : Qc) : Qc_ltb p q = true <-> p < q.
Proof.
  unfold Qc_ltb. rewrite Qclt_alt.
  destruct (p ?= q); split; intros; congruence.
Qed.

Lemma Qc_ltb_affine (c r p q : Qc) :
  0 < c -> Qc_ltb (c * p + r) (c * q + r) = Qc_ltb p q.
Proof.
  intros Hc. apply eq_true_iff_eq. rewrite !Qc_ltb_lt.
  rewrite <- Qcplus_lt_mono_r. symmetry. now apply Qcmult_lt_mono_pos_l.
Qed.

Lemma bind_fmap_in {A B C : Type} (f : B -> C) (g : A -> list C)
    (h : A -> list B) (l : list A) :
  (forall x, x ∈ l -> g x = f <$> h x) -> l ≫= g = f <$> (l ≫= h).
Proof.
  induction l as [|x l IH]; intros Hgh; [reflexivity |].
  change ((x :: l) ≫= g) with (g x ++ (l ≫= g)).
  change ((x :: l) ≫= h) with (h x ++ (l ≫= h)).
  rewrite fmap_app, Hgh by (apply elem_of_cons; now left).
  f_equal. apply IH. intros x' Hx'. apply Hgh, elem_of_cons. now right.
Qed.

Lemma elem_of_qcandidates (qs : list Qc) (hw i : Z) (c : Qc) :
  c ∈ qcandidates qs hw i
  <-> exists j k, (1 <= j <= hw)%Z /\ (1 <= k <= hw)%Z
                  /\ c = qinterpolation qs i j k.
Proof.
  unfold qcandidates. rewrite list_elem_of_bind. split.
  - intros (j & Hc & Hj). apply list_elem_of_bind in Hc as (k & Hc & Hk).
    apply list_elem_of_singleton in Hc.
    apply elem_of_py_range in Hj, Hk.
    exists j, k. split; [lia |]. split; [lia | assumption].
  - intros (j & k & Hj & Hk & ->). exists j. split.
    + apply list_elem_of_bind. exists k. split.
      * now apply list_elem_of_singleton.
      * apply elem_of_py_range; lia.
    + apply elem_of_py_range; lia.
Qed.

(** On a real-valued spectrum the candidates are real. *)
Lemma interpolation_real (qs : list Qc) (hw : Z) (t : nat) (j k : Z) :
  interior (Z.of_nat (length qs)) hw (Z.of_nat t) ->
  (1 <= j <= hw)%Z -> (1 <= k <= hw)%Z ->
  interpolation (Real <$> qs) (Z.of_nat t) j k
  = Real (qinterpolation qs (Z.of_nat t) j k).
Proof.
  intros Ht Hj Hk. unfold interior in Ht.
  unfold interpolation, qinterpolation.
  rewrite !(list_lookup_total_fmap Real qs) by lia.
  simpl. unfold xsub, xdiv. simpl.
  rewrite Qc_is_zero_false by (apply Z2Qc_nonzero; lia).
  reflexivity.
Qed.

Lemma candidates_real (qs : list Qc) (hw : Z) (t : nat) :
  interior (Z.of_nat (length qs)) hw (Z.of_nat t) ->
  candidates (Real <$> qs) hw (Z.of_nat t)
  = Real <$> qcandidates qs hw (Z.of_nat t).
Proof.
  intros Ht. unfold candidates, qcandidates.
  apply bind_fmap_in. intros j Hj. apply elem_of_py_range in Hj.
  apply bind_fmap_in. intros k Hk. apply elem_of_py_range in Hk.
  simpl. f_equal. apply (interpolation_real qs hw); (assumption || lia).
Qed.

Lemma scan_real (m : Qc) (qs : list Qc) :
  foldl (fun low t => keep_lower t low) (Real m) (Real <$> qs)
  = Real (foldl qstep m qs).
Proof.
  revert m. induction qs as [|q qs IH]; intros m; [reflexivity |].
  simpl. unfold keep_lower at 2. simpl. unfold qstep at 2.
  destruct (Qc_ltb q m); apply IH.
Qed.

Lemma running_min_real (q : Qc) (qs : list Qc) :
  running_min (Real <$> (q :: qs)) = Real (foldl qstep q qs).
Proof. unfold running_min. simpl. apply scan_real. Qed.

Lemma foldl_qstep_elem (m : Qc) (qs : list Qc) : foldl qstep m qs ∈ m :: qs.
Proof.
  revert m. induction qs as [|q qs IH]; intros m; simpl.
  - apply elem_of_cons. now left.
  - specialize (IH (qstep m q)).
    apply elem_of_cons in IH as [-> | Hin].
    + unfold qstep. destruct (Qc_ltb q m).
      * apply elem_of_cons. right. apply elem_of_cons. now left.
      * apply elem_of_cons. now left.
    + apply elem_of_cons. right. apply elem_of_cons. now right.
Qed.

Lemma foldl_qstep_affine (c r m : Qc) (qs : list Qc) :
  0 < c ->
  foldl qstep (c * m + r) ((fun x => c * x + r) <$> qs)
  = c * foldl qstep m qs + r.
Proof.
  intros Hc. revert m. induction qs as [|q qs IH]; intros m; [reflexivity |].
  simpl. rewrite <- IH. f_equal. unfold qstep.
  rewrite Qc_ltb_affine by exact Hc. now destruct (Qc_ltb q m).
Qed.

(** *** Convex combinations *)

Lemma Z2Qc_Qc_of_Z (z : Z) : Z2Qc z = Qc_of_Z z.
Proof. apply Qc_is_canon. unfold Z2Qc. simpl. apply Qred_correct. Qed.

Lemma ratio_between_0_and_1 (j k : Z) :
  (1 <= j)%Z -> (1 <= k)%Z ->
  0 <= Z2Qc j / Z2Qc (j + k) /\ Z2Qc j / Z2Qc (j + k) <= 1.
Proof.
  intros Hj Hk. rewrite !Z2Qc_Qc_of_Z.
  assert (Hden : 0 < Qc_of_Z (j + k))
    by (rewrite <- Z2Qc_inj_0; apply (proj1 (Z2Qc_inj_lt 0 (j + k))); lia).
  assert (Hnum : 0 <= Qc_of_Z j)
    by (rewrite <- Z2Qc_inj_0; apply (proj1 (Z2Qc_inj_le 0 j)); lia).
  assert (Hle : Qc_of_Z j <= Qc_of_Z (j + k))
    by (apply (proj1 (Z2Qc_inj_le j (j + k))); lia).
  assert (Hinv : 0 <= / Qc_of_Z (j + k))
    by (apply Qclt_le_weak; now apply Qcinv_pos).
  unfold Qcdiv. split.
  - now apply Qcmult_nonneg_nonneg.
  - rewrite <- (Qcmult_inv_r (Qc_of_Z (j + k))).
    + now apply Qcmult_le_mono_nonneg_r.
    + intros E. apply Qclt_not_eq in Hden. congruence.
Qed.

Lemma convex_between (a b l lo hi : Qc) :
  0 <= l -> l <= 1 -> lo <= a <= hi -> lo <= b <= hi ->
  lo <= (a - b) * l + b <= hi.
Proof.
  intros Hl0 Hl1 [Hloa Hahi] [Hlob Hbhi].
  assert (Hl' : 0 <= 1 - l).
  { apply (Qcplus_le_mono_r _ _ l). ring_simplify. exact Hl1. }
  replace ((a - b) * l + b) with (l * a + (1 - l) * b) by ring.
  split.
  - replace lo with (l * lo + (1 - l) * lo) by ring.
    apply Qcplus_le_compat; now apply Qcmult_le_mono_nonneg_l.
  - replace hi with (l * hi + (1 - l) * hi) by ring.
    apply Qcplus_le_compat; now apply Qcmult_le_mono_nonneg_l.
Qed.

(** *** The background of a real-valued spectrum *)

Lemma real_background_interior (qs : list Qc) (hw : Z) (t : nat) :
  (1 <= hw)%Z ->
  interior (Z.of_nat (length qs)) hw (Z.of_nat t) ->
  exists q0 rest,
    qcandidates qs hw (Z.of_nat t) = q0 :: rest
    /\ running_min (candidates (Real <$> qs) hw (Z.of_nat t))
       = Real (foldl qstep q0 rest).
Proof.
  intros Hhw Ht. rewrite (candidates_real qs hw t Ht).
  destruct (qcandidates qs hw (Z.of_nat t)) as [|q0 rest] eqn:E.
  - assert (Hin : qinterpolation qs (Z.of_nat t) 1 1
                  ∈ qcandidates qs hw (Z.of_nat t))
      by (apply elem_of_qcandidates; exists 1%Z, 1%Z; repeat split; lia).
    rewrite E in Hin. inversion Hin.
  - exists q0, rest. split; [reflexivity | apply running_min_real].
Qed.

(** In exact arithmetic, on a spectrum of real intensities: at an index of
    the outer loop the background is a real number within the range of the
    [half_width] neighbours on either side (every candidate is a convex
    combination of two of them), so the returned intensity is the sample
    minus a value of that range. *)
Theorem background_within_neighbours
    (a : ndarray xreal) (w : Z) (N t : nat) (qs : list Qc) (lo hi : Qc) :
  shape a = [N; 2%nat] -> well_formed a -> (2 <= w)%Z -> (w mod 2 = 0)%Z ->
  column1 (data a) = Real <$> qs ->
  interior (Z.of_nat N) (w / 2) (Z.of_nat t) ->
  (forall (s : nat) (q : Qc),
     s <> t ->
     (Z.of_nat t - w / 2 <= Z.of_nat s <= Z.of_nat t + w / 2)%Z ->
     qs !! s = Some q -> lo <= q <= hi) ->
  exists out bg b yt,
    remove_fluo_spectra_lowest_point savgol_filter a w false = inr out
    /\ background (column1 (data a)) (w / 2) = inr bg
    /\ bg !! t = Some (Real b)
    /\ lo <= b <= hi
    /\ qs !! t = Some yt
    /\ column1 (data out) !! t = Some (Real (yt - b)).
Proof.
  intros Hshape Hwf Hw Heven Hreal Ht Hrange.
  assert (Hy : length (column1 (data a)) = N).
  { apply column1_length. unfold well_formed in Hwf.
    rewrite Hshape in Hwf. simpl in Hwf. lia. }
  assert (Hqs : length qs = N) by (rewrite <- Hy, Hreal; now rewrite length_fmap).
  destruct (routine_rows savgol_filter a w false N _ Hshape Hwf Hw Heven
              eq_refl Hy)
    as (out & bg & Hout & Hbg & _ & _ & _ & Hc1 & _ & Hin & _).
  simpl preprocess in *.
  assert (Hhw : (1 <= w / 2)%Z) by (apply Z.div_le_lower_bound; lia).
  specialize (Hin t Ht). rewrite Hreal in Hin.
  rewrite <- Hqs in Ht.
  destruct (real_background_interior qs (w / 2) t Hhw Ht)
    as (q0 & rest & Hcands & Hmin).
  rewrite Hmin in Hin.
  destruct (lookup_lt_is_Some_2 qs t) as [yt Hyt];
    [unfold interior in Ht; lia |].
  exists out, bg, (foldl qstep q0 rest), yt.
  split; [exact Hout |]. split; [exact Hbg |]. split; [exact Hin |].
  split; [| split; [exact Hyt |]].
  - assert (Hmem : foldl qstep q0 rest ∈ qcandidates qs (w / 2) (Z.of_nat t))
      by (rewrite Hcands; apply foldl_qstep_elem).
    apply elem_of_qcandidates in Hmem as (j & k & Hj & Hk & ->).
    unfold qinterpolation, interior in *.
    destruct (ratio_between_0_and_1 j k) as [Hr0 Hr1]; [lia | lia |].
    assert (Hright : exists q, qs !! Z.to_nat (Z.of_nat t + k) = Some q)
      by (apply lookup_lt_is_Some_2; lia).
    assert (Hleft : exists q, qs !! Z.to_nat (Z.of_nat t - j) = Some q)
      by (apply lookup_lt_is_Some_2; lia).
    destruct Hright as [qa Ha], Hleft as [qb Hb].
    rewrite (list_lookup_total_correct _ _ _ Ha),
      (list_lookup_total_correct _ _ _ Hb).
    apply convex_between; try assumption.
    + apply (Hrange (Z.to_nat (Z.of_nat t + k))); [lia | lia | exact Ha].
    + apply (Hrange (Z.to_nat (Z.of_nat t - j))); [lia | lia | exact Hb].
  - rewrite Hc1, Hreal.
    assert (Hyt' : (Real <$> qs) !! t = Some (Real yt))
      by (rewrite list_lookup_fmap, Hyt; reflexivity).
    rewrite <- Hreal in Hyt'. rewrite <- Hreal.
    exact (subtract_lookup _ _ _ _ _ Hyt' Hin).
Qed.

(** In exact arithmetic the routine commutes with positive scaling and is
    blind to an affine baseline: if every intensity [q] at index [s] is
    replaced by [c * q + (c0 + c1 * s)] with [c > 0], every returned
    intensity is multiplied by [c], at the edges and at the indices of the
    outer loop alike. *)
Theorem affine_baseline_is_removed
    (a a' : ndarray xreal) (w : Z) (N : nat) (qs qs' : list Qc)
    (c c0 c1 : Qc) :
  shape a = [N; 2%nat] -> well_formed a ->
  shape a' = [N; 2%nat] -> well_formed a' ->
  (2 <= w)%Z -> (w mod 2 = 0)%Z -> 0 < c ->
  column1 (data a) = Real <$> qs ->
  column1 (data a') = Real <$> qs' ->
  (forall (s : nat) (q : Qc),
     qs !! s = Some q ->
     qs' !! s = Some (c * q + (c0 + c1 * Z2Qc (Z.of_nat s)))) ->
  exists out out',
    remove_fluo_spectra_lowest_point savgol_filter a w false = inr out
    /\ remove_fluo_spectra_lowest_point savgol_filter a' w false = inr out'
    /\ forall t : nat, (t < N)%nat ->
         exists r, column1 (data out) !! t = Some (Real r)
                   /\ column1 (data out') !! t = Some (Real (c * r)).
Proof.
  intros Hshape Hwf Hshape' Hwf' Hw Heven Hc Hreal Hreal' Haffine.
  assert (Hy : length (column1 (data a)) = N).
  { apply column1_length. unfold well_formed in Hwf.
    rewrite Hshape in Hwf. simpl in Hwf. lia. }
  assert (Hy' : length (column1 (data a')) = N).
  { apply column1_length. unfold well_formed in Hwf'.
    rewrite Hshape' in Hwf'. simpl in Hwf'. lia. }
  assert (Hqs : length qs = N)
    by (rewrite <- Hy, Hreal; now rewrite length_fmap).
  assert (Hqs' : length qs' = N)
    by (rewrite <- Hy', Hreal'; now rewrite length_fmap).
  destruct (routine_rows savgol_filter a w false N _ Hshape Hwf Hw Heven
              eq_refl Hy)
    as (out & bg & Hout & _ & _ & _ & _ & Hc1 & _ & Hin & Hedge).
  destruct (routine_rows savgol_filter a' w false N _ Hshape' Hwf' Hw Heven
              eq_refl Hy')
    as (out' & bg' & Hout' & _ & _ & _ & _ & Hc1' & _ & Hin' & Hedge').
  simpl preprocess in *.
  assert (Hhw : (1 <= w / 2)%Z) by (apply Z.div_le_lower_bound; lia).
  exists out, out'. split; [exact Hout |]. split; [exact Hout' |].
  intros t HtN.
  destruct (lookup_lt_is_Some_2 qs t) as [yt Hyt]; [lia |].
  assert (Hyt' := Haffine t yt Hyt).
  set (r := c0 + c1 * Z2Qc (Z.of_nat t)) in *.
  assert (Hat : column1 (data a) !! t = Some (Real yt))
    by (rewrite Hreal, list_lookup_fmap, Hyt; reflexivity).
  assert (Hat' : column1 (data a') !! t = Some (Real (c * yt + r)))
    by (rewrite Hreal', list_lookup_fmap, Hyt'; reflexivity).
  assert (Hsub : forall m : Qc,
    bg !! t = Some (Real m) -> bg' !! t = Some (Real (c * m + r)) ->
    exists r0, column1 (data out) !! t = Some (Real r0)
               /\ column1 (data out') !! t = Some (Real (c * r0))).
  { intros m Hm Hm'. exists (yt - m). split.
    - rewrite Hc1. exact (subtract_lookup _ _ _ _ _ Hat Hm).
    - rewrite Hc1'.
      replace (c * (yt - m)) with (c * yt + r - (c * m + r)) by ring.
      exact (subtract_lookup _ _ _ _ _ Hat' Hm'). }
  destruct (Z_le_dec (w / 2) (Z.of_nat t)) as [Hlo | Hlo];
    [destruct (Z_lt_dec (Z.of_nat t) (Z.of_nat N - w / 2)) as [Hhi | Hhi] |].
  - (* an index of the outer loop *)
    assert (Ht : interior (Z.of_nat N) (w / 2) (Z.of_nat t)) by (split; lia).
    specialize (Hin t Ht). specialize (Hin' t Ht).
    rewrite Hreal in Hin. rewrite Hreal' in Hin'.
    assert (Htq : interior (Z.of_nat (length qs)) (w / 2) (Z.of_nat t))
      by now rewrite Hqs.
    assert (Htq' : interior (Z.of_nat (length qs')) (w / 2) (Z.of_nat t))
      by now rewrite Hqs'.
    destruct (real_background_interior qs (w / 2) t Hhw Htq)
      as (q0 & rest & Hcands & Hmin).
    rewrite Hmin in Hin.
    assert (Hcands' : qcandidates qs' (w / 2) (Z.of_nat t)
                      = (fun x => c * x + r)
                        <$> qcandidates qs (w / 2) (Z.of_nat t)).
    { unfold qcandidates.
      apply bind_fmap_in. intros j Hj. apply elem_of_py_range in Hj.
      apply bind_fmap_in. intros k Hk. apply elem_of_py_range in Hk.
      simpl. f_equal. unfold qinterpolation, interior in *.
      assert (Hright : exists q, qs !! Z.to_nat (Z.of_nat t + k) = Some q)
        by (apply lookup_lt_is_Some_2; lia).
      assert (Hleft : exists q, qs !! Z.to_nat (Z.of_nat t - j) = Some q)
        by (apply lookup_lt_is_Some_2; lia).
      destruct Hright as [qa Ha], Hleft as [qb Hb].
      rewrite (list_lookup_total_correct _ _ _ Ha),
        (list_lookup_total_correct _ _ _ Hb),
        (list_lookup_total_correct _ _ _ (Haffine _ _ Ha)),
        (list_lookup_total_correct _ _ _ (Haffine _ _ Hb)).
      rewrite !Z2Nat.id by lia. unfold r.
      rewrite !Z2Qc_add, Z2Qc_sub.
      assert (Hden : Z2Qc j + Z2Qc k <> 0)
        by (rewrite <- Z2Qc_add; apply Z2Qc_nonzero; lia).
      field. exact Hden. }
    rewrite (candidates_real qs' (w / 2) t Htq'), Hcands', Hcands in Hin'.
    change ((fun x => c * x + r) <$> q0 :: rest)
      with ((c * q0 + r) :: ((fun x => c * x + r) <$> rest)) in Hin'.
    rewrite running_min_real, foldl_qstep_affine in Hin' by exact Hc.
    now apply (Hsub (foldl qstep q0 rest)).
  - (* within half_width of the end *)
    assert (Ht : ~ interior (Z.of_nat N) (w / 2) (Z.of_nat t))
      by (unfold interior; lia).
    apply (Hsub yt).
    + now rewrite (Hedge t Ht).
    + now rewrite (Hedge' t Ht).
  - (* within half_width of the start *)
    assert (Ht : ~ interior (Z.of_nat N) (w / 2) (Z.of_nat t))
      by (unfold interior; lia).
    apply (Hsub yt).
    + now rewrite (Hedge t Ht).
    + now rewrite (Hedge' t Ht).
Qed.

End ExactEnvelope.

(** * The interactive part: facts *)

Section SessionFacts.
Import Float64 Session Ascii.

Variable savgol_filter : list float -> Z -> Z -> result (list float).
Variable format_8g : float -> string.
Variable default_stem : string -> string.

Local Abbreviation process_one_file :=
  (Session.process_one_file savgol_filter format_8g default_stem).
Local Abbreviation main :=
  (Session.main savgol_filter format_8g default_stem).
Local Abbreviation goes_on :=
  (Session.goes_on savgol_filter format_8g default_stem).
Local Abbreviation clip_text := (Session.clip_text format_8g).
Local Abbreviation smoothed := (Session.smoothed savgol_filter).

(** Every way through [process_one_file]. *)
Ltac walk_process_one_file r :=
  unfold Session.process_one_file, np_loadtxt, np_savetxt, emit, throw,
    io_bind;
  destruct r as [file ld save_path save_err clip_err]; simpl;
  destruct (is_empty file) eqn:Hfile; simpl;
  [| destruct ld as [msg | arr]; simpl;
     [| destruct (remove_fluo_spectra_lowest_point savgol_filter arr 30 true)
          as [exc | cleaned] eqn:Hrun; simpl;
        [| destruct (is_empty save_path) eqn:Hsave; simpl;
           [| destruct save_err as [smsg |]; simpl];
           try (destruct clip_err as [cmsg |]; simpl)]]].

Ltac empty_or_not :=
  repeat match goal with
  | H : is_empty _ = true |- _ =>
      unfold is_empty in H; apply String.eqb_eq in H
  | H : is_empty _ = false |- _ =>
      unfold is_empty in H; apply String.eqb_neq in H
  end.

(** The Tk root is created once, first; it is destroyed once, last, when
    the call returns, and it is never destroyed when an exception leaves the
    call: by [np.loadtxt], the estimator or [np.savetxt]. *)
Theorem root_destroyed_iff_returns (r : round) :
  firstn 1 (fst (process_one_file r)) = [TkRoot]
  /\ match snd (process_one_file r) with
     | inr _ =>
         destroys (fst (process_one_file r)) = 1%nat
         /\ last (fst (process_one_file r)) = Some Destroy
     | inl _ => destroys (fst (process_one_file r)) = 0%nat
     end.
Proof. walk_process_one_file r; repeat split; reflexivity. Qed.

(** The call returns exactly when no file was chosen, or the chosen file
    loads, the estimator accepts it, and the save dialog is cancelled or
    [np.savetxt] works. A clipboard that fails is caught and changes
    nothing of this. *)
Theorem process_one_file_returns_iff (r : round) :
  (exists u, snd (process_one_file r) = inr u)
  <-> (chosen_file r = EmptyString
       \/ exists a clean,
            loaded r = inr a
            /\ remove_fluo_spectra_lowest_point savgol_filter a 30 true
               = inr clean
            /\ (chosen_save_path r = EmptyString
                \/ savetxt_error r = None)).
Proof.
  walk_process_one_file r; empty_or_not;
    (split;
     [ intros [u Hu]; try discriminate;
       first [ now left
             | right; exists arr, cleaned; repeat split; auto ]
     | intros [Hnone | (a' & clean' & Ha & Hclean & Hsaved)];
       try (now exists tt); try congruence;
       try (injection Ha as <-; rewrite Hrun in Hclean; discriminate);
       try (destruct Hsaved; congruence) ]).
Qed.

(** *** What the estimator is called with *)

Lemma validate_30 (sh : list nat) (e : exn) :
  validate sh 30 = inl e ->
  e = InvalidShape /\ (length sh <> 2%nat \/ nth 1 sh 0%nat <> 2%nat).
Proof.
  unfold validate.
  destruct (length sh =? 2)%nat eqn:E1; simpl.
  - destruct (nth 1 sh 0%nat =? 2)%nat eqn:E2; simpl; [discriminate |].
    intros [= <-]. split; [reflexivity |]. right. now apply Nat.eqb_neq.
  - intros [= <-]. split; [reflexivity |]. left. now apply Nat.eqb_neq.
Qed.

Lemma estimator_with_width_30 (a : ndarray float) (e : exn) :
  well_formed a -> smoothed a ->
  remove_fluo_spectra_lowest_point savgol_filter a 30 true = inl e
  <-> e = InvalidShape
      /\ (length (shape a) <> 2%nat \/ nth 1 (shape a) 0%nat <> 2%nat).
Proof.
  intros Hwf Hsm. split.
  - intros Hrun. destruct (validate (shape a) 30) as [e' | []] eqn:Hv.
    + unfold remove_fluo_spectra_lowest_point in Hrun. rewrite Hv in Hrun.
      injection Hrun as <-. now apply validate_30.
    + apply validate_inr_shape in Hv as ([N HN] & Hw & Heven).
      destruct (Hsm N HN) as (p & Hp & Hlen).
      destruct (routine_returns savgol_filter a 30 true N p HN Hwf Hw Heven
                  Hp Hlen) as (bg & _ & _ & Hout).
      congruence.
  - intros [-> Hbad]. unfold remove_fluo_spectra_lowest_point.
    now rewrite validate_bad_shape.
Qed.

(** With the width 30 and the smoothing that [process_one_file] passes, the
    estimator never rejects its parameters: where the smoother returns, the
    one exception it raises there is InvalidShape, exactly when the loaded
    table is not (N,2). *)
Theorem estimator_rejects_only_the_shape
    (r : round) (a : ndarray float) (e : exn) :
  loaded r = inr a -> well_formed a -> smoothed a ->
  snd (process_one_file r) = inl (Raised e)
  <-> chosen_file r <> EmptyString
      /\ e = InvalidShape
      /\ (length (shape a) <> 2%nat \/ nth 1 (shape a) 0%nat <> 2%nat).
Proof.
  intros Hld Hwf Hsm. rewrite <- (estimator_with_width_30 a e Hwf Hsm).
  revert Hld. walk_process_one_file r; empty_or_not; intros Hld;
    try discriminate Hld; try (injection Hld as ->);
    (split;
     [ intros Hres; try discriminate Hres;
       injection Hres as <-; split; assumption
     | intros [Hne Hrun']; try contradiction; congruence ]).
Qed.

(** What is saved is the estimator's output on the loaded table, and with
    the width 30 its first 15 and last 15 rows are never corrected: their
    intensity is the smoothed intensity minus itself, zero wherever that is
    finite. A table of 30 rows or fewer is saved with no intensity left. *)
Theorem saved_spectrum_edges_are_zero
    (r : round) (a : ndarray float) (N : nat) (path : string)
    (clean : ndarray float) (p : list float) (t : nat) (pt : float) :
  loaded r = inr a -> shape a = [N; 2%nat] -> well_formed a ->
  savgol_filter (column1 (data a)) 5 1 = inr p -> length p = N ->
  SaveTxt path clean ∈ fst (process_one_file r) ->
  (Z.of_nat t < 15 \/ Z.of_nat N - 15 <= Z.of_nat t) ->
  p !! t = Some pt ->
  is_finite pt = true ->
  remove_fluo_spectra_lowest_point savgol_filter a 30 true = inr clean
  /\ column1 (data clean) !! t = Some 0%float.
Proof.
  intros Hld Hshape Hwf Hp Hlen Hsaved Hedge Hpt Hfin.
  assert (Hrun : remove_fluo_spectra_lowest_point savgol_filter a 30 true
                 = inr clean).
  { revert Hld Hsaved. walk_process_one_file r; intros Hld Hsaved;
      repeat match goal with
      | H : _ ∈ _ :: _ |- _ => apply elem_of_cons in H as [H | H]
      | H : _ ∈ [] |- _ => inversion H
      end; try discriminate.
    all: injection Hld as ->; injection Hsaved as _ ->; exact Hrun. }
  split; [exact Hrun |].
  destruct (routine_rows savgol_filter a 30 true N p Hshape Hwf
              ltac:(lia) eq_refl Hp Hlen)
    as (out & bg & Hout & _ & _ & _ & _ & Hc1 & _ & _ & Hcopy).
  assert (out = clean) by congruence. subst out.
  change (30 / 2) with 15 in Hcopy.
  assert (Hbgt : bg !! t = Some pt).
  { rewrite Hcopy; [exact Hpt |]. unfold interior. lia. }
  rewrite Hc1, <- (sub_diag_finite pt Hfin).
  exact (subtract_lookup _ _ _ _ _ Hpt Hbgt).
Qed.

(** *** The loop *)

Arguments files_asked : simpl never.

Lemma files_asked_app (tr tr' : list action) :
  files_asked (tr ++ tr') = (files_asked tr + files_asked tr')%nat.
Proof. unfold files_asked. now rewrite List.filter_app, length_app. Qed.

(** Each call opens the file dialog once, whatever happens next. *)
Lemma process_one_file_asks_once (r : round) :
  files_asked (fst (process_one_file r)) = 1%nat.
Proof. walk_process_one_file r; reflexivity. Qed.

Lemma main_goes_on (it : iteration) (rest : list iteration) :
  goes_on it = true ->
  main (it :: rest)
  = (fst (process_one_file (world it)) ++ Prompt question :: fst (main rest),
     snd (main rest)).
Proof.
  unfold goes_on. simpl.
  destruct (process_one_file (world it)) as [tr [f | u]]; simpl;
    [discriminate |].
  destruct (answer it) as [line |]; [| discriminate].
  destruct (stops line); [discriminate |].
  intros _. now destruct (main rest).
Qed.

Lemma main_stops (it : iteration) (rest : list iteration) :
  goes_on it = false ->
  main (it :: rest) = main [it]
  /\ files_asked (fst (main [it])) = 1%nat
  /\ snd (main [it])
     = match snd (process_one_file (world it)) with
       | inl f => Crashed f
       | inr _ =>
           match answer it with
           | None => Crashed EOFError
           | Some _ => Ended
           end
       end.
Proof.
  unfold goes_on. simpl.
  pose proof (process_one_file_asks_once (world it)) as Hone.
  destruct (process_one_file (world it)) as [tr [f | u]]; simpl in *;
    [repeat split; assumption |].
  destruct (answer it) as [line |].
  - destruct (stops line); [| discriminate].
    intros _. repeat split. simpl fst.
    rewrite files_asked_app, Hone. reflexivity.
  - intros _. repeat split. simpl fst.
    rewrite files_asked_app, Hone. reflexivity.
Qed.

(** The session handles one file after another for as long as each call
    returns and each answer says yes. At the first turn where that fails
    the program is over, whatever would have come next: ended, if the call
    returned and an answer other than yes was typed; crashed with the
    exception, if the call raised, for the loop catches nothing; crashed
    with EOFError if the input had ended. One file dialog was opened per
    turn up to that one. *)
Theorem session_runs_until_first_stop
    (before : list iteration) (it : iteration) (after : list iteration) :
  (forall it', it' ∈ before -> goes_on it' = true) ->
  goes_on it = false ->
  main (before ++ it :: after) = main (before ++ [it])
  /\ files_asked (fst (main (before ++ it :: after)))
     = S (length before)
  /\ snd (main (before ++ it :: after))
     = match snd (process_one_file (world it)) with
       | inl f => Crashed f
       | inr _ =>
           match answer it with
           | None => Crashed EOFError
           | Some _ => Ended
           end
       end.
Proof.
  intros Hbefore Hstop.
  induction before as [|it0 before IH]; simpl app.
  - destruct (main_stops it after Hstop) as (-> & Hasked & Hout).
    repeat split; assumption.
  - assert (Hgo : goes_on it0 = true)
      by (apply Hbefore, elem_of_cons; now left).
    destruct IH as (IHeq & IHasked & IHout).
    { intros it' Hit'. apply Hbefore, elem_of_cons. now right. }
    rewrite !(main_goes_on it0 _ Hgo), IHeq. simpl fst. simpl snd.
    split; [reflexivity |]. split.
    + rewrite files_asked_app, process_one_file_asks_once.
      change (Prompt question :: fst (main (before ++ [it])))
        with ([Prompt question] ++ fst (main (before ++ [it]))).
      rewrite files_asked_app, <- IHeq, IHasked. reflexivity.
    + now rewrite <- IHeq.
Qed.

(** *** The answer at the prompt *)

Lemma lower_char_y (c : ascii) :
  lower_char c = "y"%char <-> c = "y"%char \/ c = "Y"%char.
Proof.
  destruct c as [[] [] [] [] [] [] [] []]; vm_compute;
    split; intros; try discriminate; auto;
    match goal with H : _ \/ _ |- _ => destruct H; discriminate end.
Qed.

Lemma lstrip_spec (l : list ascii) :
  exists pre,
    l = pre ++ lstrip l
    /\ Forall (fun c => is_space c = true) pre
    /\ (forall c m, lstrip l = c :: m -> is_space c = false).
Proof.
  induction l as [|c l IH]; simpl.
  - exists []. repeat split; [constructor | discriminate].
  - destruct (is_space c) eqn:Hc.
    + destruct IH as (pre & Hl & Hpre & Hhead).
      exists (c :: pre). split; [simpl; now f_equal |].
      split; [now constructor | exact Hhead].
    + exists []. split; [reflexivity |]. split; [constructor |].
      intros c' m [= <- _]. exact Hc.
Qed.

Lemma lstrip_spaces (pre l : list ascii) :
  Forall (fun c => is_space c = true) pre -> lstrip (pre ++ l) = lstrip l.
Proof.
  induction 1 as [|c pre Hc _ IH]; [reflexivity |].
  simpl. now rewrite Hc.
Qed.

Lemma Forall_rev {A : Type} (P : A -> Prop) (l : list A) :
  Forall P l -> Forall P (rev l).
Proof.
  induction 1 as [|x l Hx _ IH]; simpl; [constructor |].
  apply Forall_app. split; [exact IH | now constructor].
Qed.

(** On a line of ASCII text, only [y] and [Y] with any white space around
    keep the session going: every other line, [yes] included, ends it. *)
Theorem only_y_goes_on (line : string) :
  is_ascii line = true ->
  stops line = false
  <-> exists pre c post,
        list_ascii_of_string line = pre ++ c :: post
        /\ (c = "y"%char \/ c = "Y"%char)
        /\ Forall (fun c => is_space c = true) pre
        /\ Forall (fun c => is_space c = true) post.
Proof.
  intros _. unfold stops, lower, strip.
  rewrite negb_false_iff, String.eqb_eq, list_ascii_of_string_of_list_ascii.
  set (l := list_ascii_of_string line).
  split.
  - intros Hy. apply (f_equal list_ascii_of_string) in Hy.
    rewrite list_ascii_of_string_of_list_ascii in Hy. simpl in Hy.
    destruct (rev (lstrip (rev (lstrip l)))) as [|c [|c' m]] eqn:E;
      try discriminate.
    injection Hy as Hc. apply lower_char_y in Hc.
    destruct (lstrip_spec l) as (pre & Hl & Hpre & _).
    destruct (lstrip_spec (rev (lstrip l))) as (post & Hr & Hpost & _).
    apply (f_equal (@rev ascii)) in E. rewrite rev_involutive in E.
    simpl in E. rewrite E in Hr.
    apply (f_equal (@rev ascii)) in Hr. rewrite rev_involutive in Hr.
    rewrite rev_app_distr in Hr. simpl in Hr.
    exists pre, c, (rev post). rewrite Hl at 1. rewrite Hr.
    repeat split; try assumption.
    now apply Forall_rev.
  - intros (pre & c & post & Hl & Hc & Hpre & Hpost).
    assert (Hns : is_space c = false) by (destruct Hc as [-> | ->]; reflexivity).
    rewrite Hl, (lstrip_spaces pre (c :: post) Hpre). simpl lstrip.
    rewrite Hns. simpl rev.
    rewrite lstrip_spaces.
    + simpl. rewrite Hns. simpl.
      destruct Hc as [-> | ->]; reflexivity.
    + now apply Forall_rev.
Qed.

(** *** The clipboard text *)

Lemma has_char_append (c : ascii) (s1 s2 : string) :
  has_char c (String.append s1 s2) = has_char c s1 || has_char c s2.
Proof.
  induction s1 as [|c' s1 IH]; simpl; [reflexivity |].
  now rewrite IH, orb_assoc.
Qed.

Lemma split_on_piece (sep : ascii) (p rest : string) :
  has_char sep p = false ->
  split_on sep (String.append p (String sep rest)) = p :: split_on sep rest.
Proof.
  induction p as [|c p IH]; simpl; intros Hp.
  - now rewrite Ascii.eqb_refl.
  - apply orb_false_iff in Hp as [Hc Hp]. rewrite Hc, IH by exact Hp.
    reflexivity.
Qed.

Lemma split_on_last (sep : ascii) (p : string) :
  has_char sep p = false -> split_on sep p = [p].
Proof.
  induction p as [|c p IH]; simpl; intros Hp; [reflexivity |].
  apply orb_false_iff in Hp as [Hc Hp]. now rewrite Hc, IH.
Qed.

Lemma split_on_concat (sep : ascii) (p : string) (ps : list string) :
  (forall q, q ∈ p :: ps -> has_char sep q = false) ->
  split_on sep (String.concat (String sep EmptyString) (p :: ps)) = p :: ps.
Proof.
  revert p. induction ps as [|q ps IH]; intros p Hps.
  - simpl. apply split_on_last, Hps, elem_of_cons. now left.
  - change (String.concat (String sep EmptyString) (p :: q :: ps))
      with (String.append p
              (String sep (String.concat (String sep EmptyString) (q :: ps)))).
    rewrite split_on_piece by (apply Hps, elem_of_cons; now left).
    f_equal. apply IH. intros q' Hq'. apply Hps, elem_of_cons. now right.
Qed.

Lemma split_on_joined (sep : ascii) (ps : list string) :
  ps <> [] ->
  (forall q, q ∈ ps -> has_char sep q = false) ->
  split_on sep (String.concat (String sep EmptyString) ps) = ps.
Proof.
  destruct ps as [|p ps]; [contradiction | intros _; apply split_on_concat].
Qed.

(** The clipboard text reads back: where the formatting of a number holds
    neither a tab nor a newline, splitting the text at the newlines and each
    line at the tabs gives the formatted numbers of the rows, row by row,
    two to a row. *)
Theorem clipboard_text_splits_back (clean : ndarray float) :
  (forall v, has_char "009"%char (format_8g v) = false
             /\ has_char "010"%char (format_8g v) = false) ->
  rows clean <> [] ->
  map (split_on "009"%char) (split_on "010"%char (clip_text clean))
  = map (map format_8g) (rows clean)
  /\ Forall (fun row => length row = 2%nat) (rows clean).
Proof.
  intros Hfmt Hrows. split.
  - unfold clip_text. cbv zeta.
    assert (Hrow : forall row, row ∈ rows clean ->
      exists x c, row = [x; c]).
    { unfold rows. intros row Hin.
      apply list_elem_of_lookup in Hin as [i Hi].
      apply lookup_zip_with_Some in Hi as (x & c & -> & _ & _). eauto. }
    rewrite (split_on_joined "010"%char).
    + rewrite List.map_map. apply List.map_ext_in. intros row Hin.
      apply list_elem_of_In in Hin.
      destruct (Hrow row Hin) as (x & c & ->).
      simpl map. apply (split_on_joined "009"%char); [discriminate |].
      intros q Hq. apply elem_of_cons in Hq as [-> | Hq];
        [apply Hfmt |].
      apply list_elem_of_singleton in Hq as ->. apply Hfmt.
    + destruct (rows clean); [contradiction | discriminate].
    + intros q Hq. apply list_elem_of_In, List.in_map_iff in Hq
        as (row & <- & Hin).
      apply list_elem_of_In in Hin.
      destruct (Hrow row Hin) as (x & c & ->).
      simpl. rewrite has_char_append. simpl.
      rewrite has_char_append.
      destruct (Hfmt x) as [_ ->], (Hfmt c) as [_ ->]. reflexivity.
  - unfold rows. apply Forall_forall. intros row Hin.
    apply list_elem_of_lookup in Hin as [i Hi].
    apply lookup_zip_with_Some in Hi as (x & c & -> & _ & _). reflexivity.
Qed.

End SessionFacts.

(** ** Further worked examples *)

Section FurtherExamples.
Import Float64.
Local Open Scope float_scope.

Lemma background_is_local_at_spike :
  exists out out' bg bg' b yt yt',
    remove_fluo_spectra_lowest_point no_smoothing spike 4 false = inr out
    /\ remove_fluo_spectra_lowest_point no_smoothing dented_spike 4 false
       = inr out'
    /\ background (column1 (data spike)) (4 / 2) = inr bg
    /\ background (column1 (data dented_spike)) (4 / 2) = inr bg'
    /\ bg !! 5%nat = Some b
    /\ bg' !! 5%nat = Some b
    /\ column1 (data spike) !! 5%nat = Some yt
    /\ column1 (data dented_spike) !! 5%nat = Some yt'
    /\ column1 (data out) !! 5%nat = Some (yt - b)
    /\ column1 (data out') !! 5%nat = Some (yt' - b).
Proof.
  refine (background_is_local no_smoothing spike dented_spike 4 11 5
            _ _ _ _ _ _ _ _).
  - reflexivity.
  - reflexivity.
  - reflexivity.
  - reflexivity.
  - lia.
  - reflexivity.
  - unfold interior. change (4 / 2)%Z with 2%Z. lia.
  - intros s Hs Hwin. change (4 / 2)%Z with 2%Z in Hwin.
    do 8 (destruct s as [|s]; [try lia; reflexivity |]). lia.
Defined.

Lemma smoothing_is_preprocessing_at_spike :
  remove_fluo_spectra_lowest_point halving spike 4 true
  = remove_fluo_spectra_lowest_point halving
      (mk_ndarray [11%nat; 2%nat]
         (interleave (column0 (data spike))
            ((fun v => v / 2) <$> column1 (data spike))))
      4 false.
Proof.
  apply (smoothing_is_preprocessing halving spike 4 11
           ((fun v => v / 2) <$> column1 (data spike))).
  - reflexivity.
  - reflexivity.
  - reflexivity.
  - reflexivity.
Defined.

Lemma background_below_comparable_candidates_at_nan_window :
  exists bg b,
    background (column1 (data nan_window)) (2 / 2) = inr bg
    /\ bg !! 1%nat = Some b
    /\ is_nan b = false
    /\ (forall j k c, (1 <= j <= 2 / 2)%Z -> (1 <= k <= 2 / 2)%Z ->
          candidate (column1 (data nan_window)) (Z.of_nat 1) j k = inr c ->
          is_nan c = false -> (b <=? c) = true)
    /\ (b = infinity
        \/ exists j k, (1 <= j <= 2 / 2)%Z /\ (1 <= k <= 2 / 2)%Z
                       /\ candidate (column1 (data nan_window))
                            (Z.of_nat 1) j k
                          = inr b).
Proof.
  apply (background_below_comparable_candidates no_smoothing
           nan_window 2 3 1).
  - reflexivity.
  - reflexivity.
  - lia.
  - reflexivity.
  - unfold interior. change (2 / 2)%Z with 1%Z. lia.
Defined.


Lemma wider_window_lower_background_at_jagged :
  exists bg bg' b b',
    background jagged 1 = inr bg
    /\ background jagged 2 = inr bg'
    /\ bg !! 3%nat = Some b
    /\ bg' !! 3%nat = Some b'
    /\ (b' <=? b) = true.
Proof.
  apply (wider_window_lower_background jagged 1 2 3).
  - lia.
  - unfold interior. simpl. lia.
  - intros j k c Hj Hk Hc.
    assert (Hj' : j = 1%Z \/ j = 2%Z) by lia.
    assert (Hk' : k = 1%Z \/ k = 2%Z) by lia.
    destruct Hj' as [-> | ->], Hk' as [-> | ->];
      vm_compute in Hc; injection Hc as <-; reflexivity.
Defined.

End FurtherExamples.

Section FurtherExactExamples.
Import Exact.
Local Open Scope Qc_scope.

Lemma background_within_neighbours_at_bump :
  exists out bg b yt,
    remove_fluo_spectra_lowest_point no_smoothing bump 4 false = inr out
    /\ background (column1 (data bump)) (4 / 2) = inr bg
    /\ bg !! 3%nat = Some (Real b)
    /\ Z2Qc 0 <= b <= Z2Qc 0
    /\ bump_intensities !! 3%nat = Some yt
    /\ column1 (data out) !! 3%nat = Some (Real (yt - b)).
Proof.
  apply (background_within_neighbours no_smoothing bump 4 7 3
           bump_intensities (Z2Qc 0) (Z2Qc 0)).
  - reflexivity.
  - reflexivity.
  - lia.
  - reflexivity.
  - reflexivity.
  - unfold interior. change (4 / 2)%Z with 2%Z. lia.
  - intros s q Hs Hwin Hq. change (4 / 2)%Z with 2%Z in Hwin.
    do 7 (destruct s as [|s];
          [try lia; injection Hq as <-; split; apply Qcle_refl |]).
    lia.
Defined.

Lemma affine_baseline_is_removed_at_bump :
  exists out out',
    remove_fluo_spectra_lowest_point no_smoothing bump 4 false = inr out
    /\ remove_fluo_spectra_lowest_point no_smoothing tilted_bump 4 false
       = inr out'
    /\ forall t : nat, (t < 7)%nat ->
         exists r, column1 (data out) !! t = Some (Real r)
                   /\ column1 (data out') !! t = Some (Real (Z2Qc 2 * r)).
Proof.
  apply (affine_baseline_is_removed no_smoothing bump tilted_bump 4 7
           bump_intensities tilted_intensities (Z2Qc 2) (Z2Qc 1) (Z2Qc 3)).
  - reflexivity.
  - reflexivity.
  - reflexivity.
  - reflexivity.
  - lia.
  - reflexivity.
  - reflexivity.
  - reflexivity.
  - reflexivity.
  - intros s q Hq.
    do 7 (destruct s as [|s];
          [injection Hq as <-; simpl; f_equal; apply Qc_is_canon;
           reflexivity |]).
    discriminate Hq.
Defined.

End FurtherExactExamples.

Section SessionExamples.
Import Float64 Session Ascii.
Local Open Scope float_scope.

Lemma format_small_plain (v : float) :
  has_char "009"%char (format_small v) = false
  /\ has_char "010"%char (format_small v) = false.
Proof.
  unfold format_small. simpl List.find.
  repeat (destruct (_ =? _); [split; reflexivity |]).
  split; reflexivity.
Qed.

Lemma estimator_rejects_only_the_shape_at_three_columns :
  (snd (process_one_file halving format_small stem_of_spike
          three_columns_round)
   = inl (Raised InvalidShape)
   <-> chosen_file three_columns_round <> EmptyString
      /\ InvalidShape = InvalidShape
      /\ (length (shape three_columns) <> 2%nat
          \/ nth 1 (shape three_columns) 0%nat <> 2%nat))
  /\ (snd (process_one_file halving format_small stem_of_spike spike_round)
      = inl (Raised InvalidShape)
      <-> chosen_file spike_round <> EmptyString
          /\ InvalidShape = InvalidShape
          /\ (length (shape spike) <> 2%nat
              \/ nth 1 (shape spike) 0%nat <> 2%nat)).
Proof.
  split.
  - apply (estimator_rejects_only_the_shape halving format_small
             stem_of_spike three_columns_round three_columns InvalidShape).
    + reflexivity.
    + reflexivity.
    + intros N HN. discriminate HN.
  - apply (estimator_rejects_only_the_shape halving format_small
             stem_of_spike spike_round spike InvalidShape).
    + reflexivity.
    + reflexivity.
    + intros N HN. injection HN as <-.
      exists ((fun v => v / 2) <$> column1 (data spike)).
      split; reflexivity.
Defined.

Lemma saved_spectrum_edges_are_zero_at_spike :
  remove_fluo_spectra_lowest_point halving spike 30 true
  = inr flattened_spike
  /\ column1 (data flattened_spike) !! 5%nat = Some 0.
Proof.
  apply (saved_spectrum_edges_are_zero halving format_small stem_of_spike
           spike_round spike 11 "spike_bkgrndsub.csv"%string
           flattened_spike ((fun v => v / 2) <$> column1 (data spike)) 5 5).
  - reflexivity.
  - reflexivity.
  - reflexivity.
  - reflexivity.
  - reflexivity.
  - vm_compute. repeat constructor.
  - lia.
  - reflexivity.
  - reflexivity.
Defined.

Lemma session_runs_until_first_stop_at_three_answers :
  main halving format_small stem_of_spike
    ([mk_iteration spike_round (Some " Y  "%string)]
     ++ mk_iteration spike_round (Some "no"%string)
        :: [mk_iteration spike_round (Some "y"%string)])
  = main halving format_small stem_of_spike
      ([mk_iteration spike_round (Some " Y  "%string)]
       ++ [mk_iteration spike_round (Some "no"%string)])
  /\ files_asked
       (fst (main halving format_small stem_of_spike
               ([mk_iteration spike_round (Some " Y  "%string)]
                ++ mk_iteration spike_round (Some "no"%string)
                   :: [mk_iteration spike_round (Some "y"%string)])))
     = 2%nat
  /\ snd (main halving format_small stem_of_spike
            ([mk_iteration spike_round (Some " Y  "%string)]
             ++ mk_iteration spike_round (Some "no"%string)
                :: [mk_iteration spike_round (Some "y"%string)]))
     = Ended.
Proof.
  apply (session_runs_until_first_stop halving format_small stem_of_spike
           [mk_iteration spike_round (Some " Y  "%string)]
           (mk_iteration spike_round (Some "no"%string))
           [mk_iteration spike_round (Some "y"%string)]).
  - intros it' Hin. apply list_elem_of_singleton in Hin as ->.
    vm_compute. reflexivity.
  - vm_compute. reflexivity.
Defined.

Lemma only_y_goes_on_at_capital_y :
  stops " Y  "%string = false
  <-> exists pre c post,
        list_ascii_of_string " Y  "%string = pre ++ c :: post
        /\ (c = "y"%char \/ c = "Y"%char)
        /\ Forall (fun c => is_space c = true) pre
        /\ Forall (fun c => is_space c = true) post.
Proof.
  apply (only_y_goes_on " Y  "%string). reflexivity.
Defined.

Lemma clipboard_text_splits_back_at_spike :
  map (split_on "009"%char)
    (split_on "010"%char (clip_text format_small flattened_spike))
  = map (map format_small) (rows flattened_spike)
  /\ Forall (fun row => length row = 2%nat) (rows flattened_spike).
Proof.
  apply (clipboard_text_splits_back format_small flattened_spike).
  - exact format_small_plain.
  - discriminate.
Defined.

End SessionExamples.
